(** * Active ETF monitor: the snapshot diff and its surroundings

    A shallow embedding of [monitor_active_etfs.py]: the holdings table
    ([pandas.DataFrame]) that the scraper produces, [compare_holdings],
    the parsing stage of [UnifiedScraper.fetch_holdings] and the snapshot
    bookkeeping of [monitor_etfs].

    Numbers.  The columns [shares], [weight] and [amount] hold Python
    floats, that is binary64 values.  A float is modelled by the rational
    number it denotes ([Q]); where the program computes with floats the
    exact result is rounded to binary64 ([binary64]: [float(...)] of the
    payload, the subtraction of two columns, the literal [0.001]).  The
    special values (NaN, infinities), overflow and the loss of precision
    below 2^-1022 are outside the model; the difference of two binary64
    values is exact in that range, so nothing is lost there for a table of
    binary64 values.

    Tables.  A [DataFrame] has the five holdings columns and, optionally,
    the ['ETF'] column.  After [set_index('stock_id')] a frame is a list of
    rows whose label is the [stock_id] field.

    pandas.  The operations of pandas the program calls are written out as
    list functions next to the place they are used, each with the rule it
    follows. *)

From Stdlib Require Import QArith Qabs Lqa String Ascii.
From Stdlib Require Floats.
From stdpp Require Import base list strings gmap sorting.

Local Open Scope string_scope.

(** ** Numbers *)

(** The integer nearest to [num / den], the even one of the two when both
    are as near (for [0 < den]). *)
Definition round_half_even (num den : Z) : Z :=
  let k := (num / den)%Z in
  match (2 * (num mod den) ?= den)%Z with
  | Lt => k
  | Gt => (k + 1)%Z
  | Eq => if Z.even k then k else (k + 1)%Z
  end.

(** [n / d] rounded to 53 significant bits: the exponent [e] is the one
    for which [n / d / 2^e] lies in [[2^52, 2^53)], the significand is that
    quotient rounded to the nearest integer, ties to even. *)
Definition round_pos (n d : positive) : Q :=
  let e0 := (Z.log2 (Zpos n) - Z.log2 (Zpos d) - 53)%Z in
  let num e := (Zpos n * 2 ^ Z.max 0 (- e))%Z in
  let den e := (Zpos d * 2 ^ Z.max 0 e)%Z in
  let e := if (num e0 <? 2 ^ 53 * den e0)%Z then e0 else (e0 + 1)%Z in
  let m := round_half_even (num e) (den e) in
  Qred ((m * 2 ^ Z.max 0 e) # Z.to_pos (2 ^ Z.max 0 (- e))).

(** The binary64 value nearest to [x] (round to nearest, ties to even), as
    the rational it denotes, in lowest terms: what Python's [float] holds
    for the literal or the exact result [x]. *)
Definition binary64 (x : Q) : Q :=
  match Qnum (Qred x) with
  | Z0 => 0
  | Zpos n => round_pos n (Qden (Qred x))
  | Zneg n => - round_pos n (Qden (Qred x))
  end.

(** ** Data model *)

(** One row of a holdings table: the dict built in [fetch_holdings].  The
    three numbers are floats, that is binary64 values: the float Python
    holds for the literal [5.001] is [binary64 5.001], not the rational
    5.001. *)
Record Holding := mkHolding {
  stock_id : string;
  stock_name : string;
  shares : Q;
  weight : Q;
  amount : Q
}.

(** A holdings table.  [Plain] is what the scraper returns and what the
    snapshot files contain (columns stock_id, stock_name, shares, weight,
    amount); [Tagged] has the ['ETF'] column as well, kept here as the
    first component of each row. *)
Inductive DataFrame :=
  | Plain (rows : list Holding)
  | Tagged (rows : list (string * Holding)).

Definition columns (df : DataFrame) : list string :=
  match df with
  | Plain _ => ["stock_id"; "stock_name"; "shares"; "weight"; "amount"]
  | Tagged _ => ["stock_id"; "stock_name"; "shares"; "weight"; "amount"; "ETF"]
  end.

Definition empty (df : DataFrame) : bool :=
  match df with
  | Plain rows => bool_decide (rows = [])
  | Tagged rows => bool_decide (rows = [])
  end.

Definition DEFAULT_ETF : string := "00981A".

(** [if 'ETF' not in df.columns: df['ETF'] = '00981A'], an assignment to
    the caller's object: the function returns the table as it is
    afterwards. *)
Definition ensure_ETF (df : DataFrame) : DataFrame :=
  if bool_decide ("ETF" ∈ columns df) then df
  else match df with
       | Plain rows => Tagged (pair DEFAULT_ETF <$> rows)
       | Tagged _ => df
       end.

Definition tagged_rows (df : DataFrame) : list (string * Holding) :=
  match df with
  | Plain rows => pair DEFAULT_ETF <$> rows
  | Tagged rows => rows
  end.

(** ** The pandas operations of [compare_holdings] *)

(** [Series.unique()] and [Index.unique()]: the distinct values in order of
    first appearance. *)
Fixpoint unique (l : list string) : list string :=
  match l with
  | [] => []
  | x :: l => x :: filter (λ y, y ≠ x) (unique l)
  end.

(** [df[df['ETF'] == etf].set_index('stock_id')]: the rows of one fund, in
    table order, labelled by their [stock_id].  [set_index] does not check
    that the labels are distinct. *)
Definition set_index (etf : string) (rows : list (string * Holding)) : list Holding :=
  snd <$> filter (λ r, r.1 = etf) rows.

Definition index (frame : list Holding) : list string := stock_id <$> frame.

(** [Index.difference(other)] with its default [sort=None]: the distinct
    labels of [self] that are not in [other], sorted.  pandas returns
    before sorting in two cases (the branches of [Index.difference] noted
    "we do not (yet) sort even if sort=None", GH#24959): equal indexes
    give the empty index, and an empty [other] gives [self.unique()] as it
    is.  Labels are [str] values, which Python orders by code point: the
    byte-wise lexicographic order [String.le]. *)
Definition difference (self other : list string) : list string :=
  if bool_decide (self = other) then []
  else if bool_decide (other = []) then unique self
  else merge_sort String.le (filter (λ x, x ∉ other) (unique self)).

(** [Index.intersection(other)] with its default [sort=False]: the distinct
    labels of [self] that are in [other], in the order of [self]. *)
Definition intersection (self other : list string) : list string :=
  filter (λ x, x ∈ other) (unique self).

(** The rows of a frame that carry the label [l]. *)
Definition rows_of (l : string) (frame : list Holding) : list Holding :=
  filter (λ r, stock_id r = l) frame.

(** [frame.loc[labels]]: for each label in turn, the rows that carry it. *)
Definition loc (labels : list string) (frame : list Holding) : list Holding :=
  labels ≫= λ l, rows_of l frame.

(** The rows of [changed_df]: the label and the seven columns. *)
Module Changed.
Record row := mk {
  stock_id : string;
  stock_name : string;
  weight_prev : Q;
  weight_curr : Q;
  weight_diff : Q;
  shares_prev : Q;
  shares_curr : Q;
  shares_diff : Q
}.
End Changed.

(** Arithmetic between two columns aligns them on their labels.  When both
    indexes are equal, as they are whenever the common labels are not
    repeated, the alignment is positional.  Otherwise pandas joins the
    repeated labels, which this model does not follow: [None]. *)
Definition align (curr_common prev_common : list Holding) :
    option (list (Holding * Holding)) :=
  if bool_decide (index curr_common = index prev_common)
  then Some (zip curr_common prev_common)
  else None.

(** One row of [changed_df] before the mask: [weight_diff] and
    [shares_diff] are float subtractions, the exact difference rounded to
    binary64. *)
Definition diff_row (cp : Holding * Holding) : Changed.row :=
  let (c, p) := cp in
  {| Changed.stock_id := stock_id c;
     Changed.stock_name := stock_name c;
     Changed.weight_prev := weight p;
     Changed.weight_curr := weight c;
     Changed.weight_diff := binary64 (weight c - weight p);
     Changed.shares_prev := shares p;
     Changed.shares_curr := shares c;
     Changed.shares_diff := binary64 (shares c - shares p) |}.

Definition Qgtb (x y : Q) : bool := negb (Qle_bool x y).

(** [(weight_diff.abs() > 0.001) | (shares_diff.abs() > 0)]: the literal
    [0.001] is the float nearest to it,
    0.001000000000000000020816681711721685... *)
Definition changed_mask (r : Changed.row) : bool :=
  Qgtb (Qabs (Changed.weight_diff r)) (binary64 0.001)
  || Qgtb (Qabs (Changed.shares_diff r)) 0.

(** [sort_values(by='weight_diff', ascending=False)]: pandas sorts the
    positions of the rows by the values of the [weight_diff] column and of
    nothing else, so the labels play no part.  Rows of equal [weight_diff]
    stay in the order they arrive in: pandas reverses the column, sorts it
    ascending and reverses the result, and numpy's default sort handles a
    short column by insertion, which keeps equal values in their order.
    (numpy promises no order for equal values in general; the model keeps
    the order of arrival throughout.) *)
Definition weight_diff_ge (r1 r2 : Changed.row) : Prop :=
  (Changed.weight_diff r2 <= Changed.weight_diff r1)%Q.

#[global] Instance weight_diff_ge_dec : RelDecision weight_diff_ge.
Proof.
  intros r1 r2. unfold weight_diff_ge.
  destruct (Qle_bool (Changed.weight_diff r2) (Changed.weight_diff r1)) eqn:E.
  - left. by apply Qle_bool_iff.
  - right. intros H. apply Qle_bool_iff in H. congruence.
Defined.

Fixpoint insert_row (r : Changed.row) (sorted : list Changed.row) : list Changed.row :=
  match sorted with
  | [] => [r]
  | r' :: rest =>
      if decide (weight_diff_ge r r') then r :: sorted else r' :: insert_row r rest
  end.

Definition sort_values (df : list Changed.row) : list Changed.row :=
  foldr insert_row [] df.

(** ** [compare_holdings] *)

(** The value stored under [changes[etf]]. *)
Record Delta := mkDelta {
  new : list Holding;
  exit : list Holding;
  changed : list Changed.row
}.

(** The body of the loop [for etf in etfs] up to the assignment to
    [changes[etf]]. *)
Definition compare_etf (etf : string) (df_curr df_prev : list (string * Holding)) :
    option Delta :=
  let curr_etf := set_index etf df_curr in
  let prev_etf := set_index etf df_prev in
  let new_stocks := difference (index curr_etf) (index prev_etf) in
  let new_df := loc new_stocks curr_etf in
  let exited_stocks := difference (index prev_etf) (index curr_etf) in
  let exit_df := loc exited_stocks prev_etf in
  let common_stocks := intersection (index curr_etf) (index prev_etf) in
  let curr_common := loc common_stocks curr_etf in
  let prev_common := loc common_stocks prev_etf in
  common ← align curr_common prev_common;
  let changed_df := filter (λ r, changed_mask r = true) (diff_row <$> common) in
  Some {| new := new_df; exit := exit_df; changed := sort_values changed_df |}.

Fixpoint for_etfs (etfs : list string) (df_curr df_prev : list (string * Holding))
    (changes : gmap string Delta) : option (gmap string Delta) :=
  match etfs with
  | [] => Some changes
  | etf :: etfs =>
      d ← compare_etf etf df_curr df_prev;
      for_etfs etfs df_curr df_prev (<[etf := d]> changes)
  end.

(** What a call leaves behind: the two argument objects as they are after
    the call, and the returned dictionary ([None] when the call does not
    return one, see [align]). *)
Record Outcome := mkOutcome {
  df_curr_after : DataFrame;
  df_prev_after : DataFrame;
  changes : option (gmap string Delta)
}.

Definition compare_holdings (df_curr df_prev : DataFrame) : Outcome :=
  let df_curr := ensure_ETF df_curr in
  let df_prev := ensure_ETF df_prev in
  let etfs := unique ((tagged_rows df_curr).*1) in
  {| df_curr_after := df_curr;
     df_prev_after := df_prev;
     changes := for_etfs etfs (tagged_rows df_curr) (tagged_rows df_prev) ∅ |}.

(** [diff_data[etf]] *)
Definition delta_of (o : Outcome) (etf : string) : option Delta :=
  ch ← changes o; ch !! etf.

(** The key set of a frame. *)
Definition keys (frame : list Holding) : gset string := list_to_set (index frame).

(** No stock id that both tables of the fund have is repeated in either of
    them. *)
Definition common_once (etf : string) (df_curr df_prev : list (string * Holding)) : Prop :=
  let curr_etf := set_index etf df_curr in
  let prev_etf := set_index etf df_prev in
  Forall (λ l, l ∈ index prev_etf →
               length (rows_of l curr_etf) = 1 ∧ length (rows_of l prev_etf) = 1)
         (index curr_etf).

(** The order the specification asks of the changed rows: larger
    [weight_diff] first, equal [weight_diff] by ascending [stock_id]. *)
Definition spec_changed_order (r1 r2 : Changed.row) : Prop :=
  (Changed.weight_diff r2 < Changed.weight_diff r1)%Q ∨
  ((Changed.weight_diff r1 == Changed.weight_diff r2)%Q ∧
   String.le (Changed.stock_id r1) (Changed.stock_id r2)).

(** ** The scraper: [UnifiedScraper.fetch_holdings] *)

(** A value of the decoded JSON payload: [JNum q] is a number whose
    literal denotes [q] (an [int] or a [float] in Python); [JOther] stands
    for lists and dicts, whose contents the scraper never looks at in a
    field. *)
Inductive json :=
  | JNull
  | JBool (b : bool)
  | JNum (q : Q)
  | JStr (s : string)
  | JOther.

(** An entry of [item['Details']]: the value under each key the scraper
    reads, [None] for a key that is absent. *)
Record Detail := mkDetail {
  DetailCode : option json;
  DetailName : option json;
  Share : option json;
  NavRate : option json;
  Amount : option json
}.

(** An entry of the payload. *)
Record Asset := mkAsset {
  AssetCode : option json;
  Details : option (list Detail)
}.

(** What the request for the fund page leads to.

    [Content data]: the [data-content] attribute decodes to a JSON value
    that the two loops of [fetch_holdings] walk through as the assets
    [data] and their details.  Python iterates an empty JSON object and an
    empty JSON string without entering the loop body, so at the top level
    and as the ['Details'] of a stock asset they are walked like the empty
    list and are written [[]] here; the ['Details'] of an asset whose
    ['AssetCode'] is not ['ST'] are never looked at.

    [BadContent]: the attribute is absent ([KeyError]), its text is not
    JSON ([json.loads] raises), or walking the decoded value raises
    somewhere else than in the fields of a detail: the top-level value or
    the ['Details'] of a stock asset is a number, a boolean or null
    ([TypeError]), or a non-empty object or string (its items are [str],
    which has no [get]), or a list with an item that is not an object. *)
Inductive Response :=
  | RequestException      (* requests.get or raise_for_status raised *)
  | NoDataAsset           (* the page has no div with id DataAsset *)
  | BadContent
  | Content (data : list Asset).

(** What a run prints or writes besides the snapshot directory. *)
Inductive Event :=
  | NoKnownUrl (etf_code : string)
  | Fetching (url : string)
  | ErrorFetching (etf_code : string)
  | DataAssetNotFound (etf_code : string)
  | SavedDebugHtml (etf_code : string)
  | NoStockHoldings (etf_code : string)
  | ErrorParsing (etf_code : string)
  | Processing (etf_code : string)
  | Fetched (n : nat) (etf_code : string)
  | FailedToFetch (etf_code : string)
  | Saved (filename : string)
  | Comparing (curr_file prev_file : string)
  | NotEnoughHistory
  | ComparisonFailed
  | ReportGenerated (report_file : string)
  | IndexUpdated (latest_date : string)
  | NoDataFetched.

Definition url_map (etf_code : string) : option string :=
  if bool_decide (etf_code = "00981A")
  then Some "https://www.ezmoney.com.tw/ETF/Fund/Info?fundCode=49YTW"
  else None.

(** The ASCII characters [str.strip()] removes.  [str.strip()] removes the
    other Unicode whitespace as well (U+00A0, U+3000, ...), which this
    model, whose strings are byte strings, leaves in place. *)
Definition isspace (c : ascii) : bool :=
  let n := N_of_ascii c in
  ((9 <=? n) && (n <=? 13) || (28 <=? n) && (n <=? 32))%N.

Fixpoint lstrip (s : string) : string :=
  match s with
  | String c s' => if isspace c then lstrip s' else s
  | EmptyString => EmptyString
  end.

Definition strip (s : string) : string :=
  String.rev (lstrip (String.rev (lstrip s))).

Section scraper.
(** [float(s)] for a [str]: the number the text denotes, before it is
    rounded to a float; [None] when [float(s)] raises. *)
Variable str_to_float : string → option Q.
(** [requests.get] and the search for the [DataAsset] payload. *)
Variable http_get : string → Response.

(** [float(v)]: the binary64 value nearest to the number, [None] when it
    raises. *)
Definition float (v : json) : option Q :=
  match v with
  | JNum q => Some (binary64 q)
  | JBool b => Some (if b then 1 else 0)%Q
  | JStr s => binary64 <$> str_to_float s
  | JNull | JOther => None
  end.

(** [v.strip()]: only a [str] has the method. *)
Definition stripped (v : json) : option string :=
  match v with
  | JStr s => Some (strip s)
  | _ => None
  end.

(** The dict appended for one detail; the first field that raises ends
    the evaluation. *)
Definition parse_detail (detail : Detail) : option Holding :=
  stock_id ← stripped (default (JStr "") (DetailCode detail));
  stock_name ← stripped (default (JStr "") (DetailName detail));
  shares ← float (default (JNum 0) (Share detail));
  weight ← float (default (JNum 0) (NavRate detail));
  amount ← float (default (JNum 0) (Amount detail));
  Some (mkHolding stock_id stock_name shares weight amount).

(** A detail whose shares or weight [float] rejects. *)
Definition malformed (detail : Detail) : Prop :=
  float (default (JNum 0) (Share detail)) = None ∨
  float (default (JNum 0) (NavRate detail)) = None.

(** [item.get('AssetCode') == 'ST' and 'Details' in item] *)
Definition stock_details (item : Asset) : option (list Detail) :=
  match AssetCode item with
  | Some (JStr code) => if bool_decide (code = "ST") then Details item else None
  | _ => None
  end.

(** The loop that fills [holdings]; [None] when an exception leaves it. *)
Fixpoint parse_holdings (data : list Asset) : option (list Holding) :=
  match data with
  | [] => Some []
  | item :: data =>
      match stock_details item with
      | Some details =>
          rows ← mapM parse_detail details;
          holdings ← parse_holdings data;
          Some (rows ++ holdings)%list
      | None => parse_holdings data
      end
  end.

(** Every detail the loop visits. *)
Definition stock_rows (data : list Asset) : list Detail :=
  data ≫= λ item, default [] (stock_details item).

(** The rows of the returned [DataFrame], or [None], and what is
    printed and saved on the way. *)
Definition fetch_holdings (etf_code : string) : option (list Holding) * list Event :=
  match url_map etf_code with
  | None => (None, [NoKnownUrl etf_code])
  | Some url =>
      match http_get url with
      | RequestException => (None, [Fetching url; ErrorFetching etf_code])
      | NoDataAsset =>
          (None, [Fetching url; DataAssetNotFound etf_code; SavedDebugHtml etf_code])
      | BadContent =>
          (None, [Fetching url; ErrorParsing etf_code; SavedDebugHtml etf_code])
      | Content data =>
          match parse_holdings data with
          | None => (None, [Fetching url; ErrorParsing etf_code; SavedDebugHtml etf_code])
          | Some [] => (None, [Fetching url; NoStockHoldings etf_code])
          | Some holdings => (Some holdings, [Fetching url])
          end
      end
  end.
End scraper.

(** A [str_to_float] for plain decimal literals (sign, digits, one
    optional point), enough for the sample payloads. *)
Definition digit (c : ascii) : option Z :=
  let n := Z.of_N (N_of_ascii c) in
  if ((48 <=? n) && (n <=? 57))%Z then Some (n - 48)%Z else None.

Fixpoint decimal_digits (s : string) (point any : bool) (num : Z) (den : positive) :
    option Q :=
  match s with
  | EmptyString => if any then Some (num # den) else None
  | String c s' =>
      if bool_decide (c = "."%char)
      then (if point then None else decimal_digits s' true any num den)
      else d ← digit c;
           decimal_digits s' point true (10 * num + d)%Z (if point then 10 * den else den)%positive
  end.

Definition plain_decimal (s : string) : option Q :=
  match s with
  | String "-" s' => Qopp <$> decimal_digits s' false false 0 1
  | String "+" s' => decimal_digits s' false false 0 1
  | _ => decimal_digits s false false 0 1
  end.

(** ** The run: [monitor_etfs] *)

(** A file of the output directory [etf_data].  A snapshot is kept as the
    table [to_csv] wrote into it; the pages saved for debugging never match
    the snapshot filter and are left out of the directory. *)
Inductive File :=
  | Snapshot (df : DataFrame)
  | Report (diff_data : gmap string Delta)
  | Other.

Definition startswith (prefix s : string) : bool := String.prefix prefix s.

Definition endswith (suffix s : string) : bool :=
  String.prefix (String.rev suffix) (String.rev s).

Definition is_snapshot (f : string) : bool :=
  startswith "etf_holdings_" f && endswith ".csv" f.

Definition snapshot_name (timestamp : string) : string :=
  "etf_holdings_" ++ timestamp ++ ".csv".

Definition report_name (date_str : string) : string :=
  "report_" ++ date_str ++ ".html".

(** [sorted([f for f in os.listdir(OUTPUT_DIR)
             if f.startswith('etf_holdings_') and f.endswith('.csv')])] *)
Definition snapshot_files (dir : gmap string File) : list string :=
  merge_sort String.le (filter (λ f, is_snapshot f = true) (elements (dom dir))).

Definition target_etfs : list string := ["00981A"].

(** What a run leaves: the returned table, the output directory, the
    messages in the order they are printed. *)
Record Run := mkRun {
  returned : option DataFrame;
  etf_data : gmap string File;
  printed : list Event
}.

(** [generate_index_page]: the landing page lies outside [etf_data]. *)
Definition generate_index_page (latest_date : string) : list Event :=
  [IndexUpdated latest_date].

(** [generate_html_report]: the report of the day is written into
    [etf_data]; its markup is not modelled, the file stands for the deltas
    it renders. *)
Definition generate_html_report (diff_data : gmap string Delta) (date_str : string)
    (dir : gmap string File) : gmap string File * list Event :=
  (<[report_name date_str := Report diff_data]> dir,
   ReportGenerated (report_name date_str) :: generate_index_page date_str).

Section run.
Variable str_to_float : string → option Q.
Variable http_get : string → Response.
(** [pd.read_csv] on the text [to_csv] wrote for a table: pandas infers
    the type of every column afresh, so what comes back need not be the
    table that was written (a stock_id column of digits only comes back
    as integers, ['0050'] as [50]); [None] when it raises.  The run is
    defined for whatever [pd.read_csv] returns.  A table with integer
    labels is passed on with the labels written in decimal;
    [compare_holdings] orders Entered and Exited by [String.le], where
    pandas orders integer labels as numbers, so for such tables the
    order of those rows in the report is outside the model. *)
Variable pd_read_csv : DataFrame → option DataFrame.
(** [datetime.now().strftime("%Y%m%d")] *)
Variable timestamp : string.

Definition read_csv (dir : gmap string File) (f : string) : option DataFrame :=
  match dir !! f with
  | Some (Snapshot df) => pd_read_csv df
  | _ => None
  end.

(** The loop over [target_etfs]: the tables appended to [all_data]
    ([df is not None and not df.empty]) and what is printed. *)
Fixpoint fetch_all (etfs : list string) : list (list Holding) * list Event :=
  match etfs with
  | [] => ([], [])
  | code :: etfs =>
      let (df, out) := fetch_holdings str_to_float http_get code in
      let (all_data, outs) := fetch_all etfs in
      match df with
      | Some rows =>
          if negb (empty (Plain rows))
          then (rows :: all_data,
                Processing code :: out ++ Fetched (length rows) code :: outs)%list
          else (all_data, Processing code :: out ++ FailedToFetch code :: outs)%list
      | None => (all_data, Processing code :: out ++ FailedToFetch code :: outs)%list
      end
  end.

(** The block under [# Comparison Logic], entered after the snapshot of
    the day is in the directory. *)
Definition comparison (final_df : DataFrame) (dir : gmap string File) : Run :=
  let files := snapshot_files dir in
  if bool_decide (2 ≤ length files)%nat then
    let prev_file := default "" (files !! (length files - 2)) in
    let curr_file := default "" (files !! (length files - 1)) in
    match read_csv dir curr_file, read_csv dir prev_file with
    | Some df_curr, Some df_prev =>
        let final_df := ensure_ETF final_df in
        match changes (compare_holdings df_curr df_prev) with
        | Some diff_data =>
            let (dir, out) := generate_html_report diff_data timestamp dir in
            {| returned := Some final_df; etf_data := dir;
               printed := Comparing curr_file prev_file :: out |}
        | None =>
            {| returned := Some final_df; etf_data := dir;
               printed := [Comparing curr_file prev_file; ComparisonFailed] |}
        end
    | _, _ =>
        {| returned := Some final_df; etf_data := dir;
           printed := [Comparing curr_file prev_file; ComparisonFailed] |}
    end
  else
    {| returned := Some final_df; etf_data := dir; printed := [NotEnoughHistory] |}.

Definition monitor_etfs (dir : gmap string File) : Run :=
  let (all_data, out) := fetch_all target_etfs in
  if bool_decide (all_data ≠ []) then
    let final_df := Plain (mjoin all_data) in
    let filename := snapshot_name timestamp in
    let dir := <[filename := Snapshot final_df]> dir in
    let r := comparison final_df dir in
    {| returned := returned r; etf_data := etf_data r;
       printed := (out ++ Saved filename :: printed r)%list |}
  else
    {| returned := None; etf_data := dir; printed := (out ++ [NoDataFetched])%list |}.
End run.

(** The date a stamp of digits spells, as a number. *)
Fixpoint stamp_value (s : string) : Z :=
  match s with
  | EmptyString => 0
  | String c s' =>
      (Z.of_N (N_of_ascii c) - 48) * 10 ^ Z.of_nat (String.length s') + stamp_value s'
  end%Z.

Fixpoint all_digits (s : string) : bool :=
  match s with
  | EmptyString => true
  | String c s' => bool_decide (is_Some (digit c)) && all_digits s'
  end.
(** Sample rows: the position A of the specification's scenarios, and a
    second position B. *)
Definition A_1000 : Holding := mkHolding "A" "Alpha" 1000 5 50000.
Definition A_1200 : Holding := mkHolding "A" "Alpha" 1200 5 60000.
Definition A_up : Holding := mkHolding "A" "Alpha" 1000 6 60000.
Definition B_500 : Holding := mkHolding "B" "Beta" 500 2 10000.
Definition B_up : Holding := mkHolding "B" "Beta" 500 3 15000.
Definition C_700 : Holding := mkHolding "C" "Gamma" 700 3 21000.
Definition C_up : Holding := mkHolding "C" "Gamma" 700 4 28000.
Definition A_lot2 : Holding := mkHolding "A" "Alpha" 300 1 3000.
Definition A_above : Holding := mkHolding "A" "Alpha" 1000 (binary64 5.0011) 50011.
Definition A_below : Holding := mkHolding "A" "Alpha" 1000 (binary64 5.0009) 50009.
Definition A_5001 : Holding := mkHolding "A" "Alpha" 1000 (binary64 5.001) 50010.
Definition A_0 : Holding := mkHolding "A" "Alpha" 1000 0 0.
Definition A_0001 : Holding := mkHolding "A" "Alpha" 1000 (binary64 0.001) 10.


(** A sample payload: one well-formed detail, one whose share count is not
    a number, and a directory holding the snapshot of the day before. *)
Definition tsmc : Detail :=
  mkDetail (Some (JStr "2330")) (Some (JStr "TSMC")) (Some (JStr "1000"))
           (Some (JNum 5)) (Some (JNum 50000)).
Definition mediatek_bad : Detail :=
  mkDetail (Some (JStr "2454")) (Some (JStr "MediaTek")) (Some (JStr "N/A"))
           (Some (JNum 2)) (Some (JNum 10000)).
Definition tsmc_row : Holding := mkHolding "2330" "TSMC" 1000 5 50000.
Definition yesterday : gmap string File :=
  {["etf_holdings_20250101.csv" := Snapshot (Plain [A_1000])]}.

(** A [pd.read_csv] that gives back the table that was written, as it does
    for the sample tables: no stock id with a leading zero, no empty
    name. *)
Definition same_table (df : DataFrame) : option DataFrame := Some df.

(** ** Notions used by the further properties *)

(** The string begins with a character [str.strip()] removes. *)
Definition starts_with_space (s : string) : bool :=
  match s with
  | String c _ => isspace c
  | EmptyString => false
  end.

(** The messages that end a run: nothing fetched, not enough history, a
    failed comparison, or the landing page updated after the report. *)
Definition run_outcome (e : Event) : bool :=
  match e with
  | NoDataFetched | NotEnoughHistory | ComparisonFailed | IndexUpdated _ => true
  | _ => false
  end.

(** ** The colour classes of the report

    In the changes table of [generate_html_report] the two difference
    cells of a row carry a CSS class computed from the sign of the
    difference. *)

Definition Qltb (x y : Q) : bool := Qgtb y x.

(** [w_color = "increase" if w_diff > 0 else ("decrease" if w_diff < 0 else "")] *)
Definition w_color (row : Changed.row) : string :=
  let w_diff := Changed.weight_diff row in
  if Qgtb w_diff 0 then "increase" else if Qltb w_diff 0 then "decrease" else "".

(** [s_color = "increase" if s_diff > 0 else ("decrease" if s_diff < 0 else "")] *)
Definition s_color (row : Changed.row) : string :=
  let s_diff := Changed.shares_diff row in
  if Qgtb s_diff 0 then "increase" else if Qltb s_diff 0 then "decrease" else "".

(** ** The kernel's binary64

    Rocq's primitive floats are binary64 values with the IEEE 754
    operations.  [kernel_value] is the rational such a float denotes and
    [kernel_float num den] the float of the literal [num / den]; they serve
    to compare [binary64] with the kernel's arithmetic on examples. *)
Definition kernel_value (f : PrimFloat.float) : option Q :=
  match FloatOps.Prim2SF f with
  | SpecFloat.S754_zero _ => Some 0%Q
  | SpecFloat.S754_finite s m e =>
      let v := Qred ((Zpos m * 2 ^ Z.max 0 e) # Z.to_pos (2 ^ Z.max 0 (- e))) in
      Some (if s then (- v)%Q else v)
  | _ => None
  end.

Definition kernel_float (num den : Z) : PrimFloat.float :=
  PrimFloat.div (PrimFloat.of_uint63 (Uint63.of_Z num))
                (PrimFloat.of_uint63 (Uint63.of_Z den)).

(** * Properties *)

(** ** Rounding to binary64 *)

Lemma round_half_even_near (num den : Z) :
  (0 < den)%Z → (2 * Z.abs (round_half_even num den * den - num) <= den)%Z.
Proof.
  intros Hden. unfold round_half_even.
  pose proof (Z.div_mod num den ltac:(lia)) as Hdm.
  pose proof (Z.mod_pos_bound num den Hden) as Hr.
  destruct (Z.compare_spec (2 * (num mod den)) den) as [E|E|E];
    [destruct (Z.even (num / den))| |]; nia.
Qed.

Lemma scale_bounds (n d : positive) (e : Z) :
  let e0 := (Z.log2 (Zpos n) - Z.log2 (Zpos d) - 53)%Z in
  let num e := (Zpos n * 2 ^ Z.max 0 (- e))%Z in
  let den e := (Zpos d * 2 ^ Z.max 0 e)%Z in
  e = (if (num e0 <? 2 ^ 53 * den e0)%Z then e0 else (e0 + 1)%Z) →
  (0 < den e)%Z ∧ (2 ^ 52 * den e <= num e)%Z.
Proof.
  intros e0 num den He.
  assert (∀ e, 0 < 2 ^ Z.max 0 e)%Z as Hpow by (intros; apply Z.pow_pos_nonneg; lia).
  assert (∀ e, 0 < den e)%Z as Hden by (intros; unfold den; specialize (Hpow e0); nia).
  split; [apply Hden|].
  pose proof (Z.log2_spec (Zpos n) ltac:(lia)) as [Hn1 Hn2].
  pose proof (Z.log2_spec (Zpos d) ltac:(lia)) as [Hd1 Hd2].
  pose proof (Z.log2_nonneg (Zpos n)) as Hln.
  pose proof (Z.log2_nonneg (Zpos d)) as Hld.
  set (ln := Z.log2 (Zpos n)) in *. set (ld := Z.log2 (Zpos d)) in *.
  (* at e0 the scaled value is above 2^52 *)
  assert (2 ^ 52 * den e0 <= num e0)%Z as H0.
  { unfold num, den, e0.
    destruct (Z.le_gt_cases 0 (ln - ld - 53)) as [Hpos|Hneg].
    - rewrite (Z.max_r 0 (ln - ld - 53)), (Z.max_l 0 (- (ln - ld - 53))) by lia.
      rewrite Z.pow_0_r, Z.mul_1_r.
      assert (2 ^ 52 * (2 ^ Z.succ ld * 2 ^ (ln - ld - 53)) = 2 ^ ln)%Z as E.
      { rewrite <- !Z.pow_add_r by lia. f_equal. lia. }
      pose proof (Hpow (ln - ld - 53)%Z) as Hp.
      rewrite Z.max_r in Hp by lia. nia.
    - rewrite (Z.max_l 0 (ln - ld - 53)), (Z.max_r 0 (- (ln - ld - 53))) by lia.
      rewrite Z.pow_0_r, Z.mul_1_r.
      assert (2 ^ ln * 2 ^ (- (ln - ld - 53)) = 2 ^ 52 * 2 ^ Z.succ ld)%Z as E.
      { rewrite <- !Z.pow_add_r by lia. f_equal. lia. }
      pose proof (Hpow (- (ln - ld - 53))%Z) as Hp.
      rewrite Z.max_r in Hp by lia. nia. }
  destruct (num e0 <? 2 ^ 53 * den e0)%Z eqn:Hlt; subst e; [done|].
  apply Z.ltb_ge in Hlt.
  (* one step up halves the scaled value *)
  assert (2 * (2 ^ 52 * den (e0 + 1)) <= 2 * num (e0 + 1))%Z; [|lia].
  unfold num, den in *.
  destruct (Z.le_gt_cases 0 e0) as [Hpos|Hneg].
  - rewrite (Z.max_r 0 (e0 + 1)), (Z.max_l 0 (- (e0 + 1))) by lia.
    rewrite (Z.max_r 0 e0), (Z.max_l 0 (- e0)) in Hlt by lia.
    rewrite Z.pow_add_r by lia. rewrite Z.pow_0_r in *. lia.
  - rewrite (Z.max_l 0 (e0 + 1)), (Z.max_r 0 (- (e0 + 1))) by lia.
    rewrite (Z.max_l 0 e0), (Z.max_r 0 (- e0)) in Hlt by lia.
    replace (- e0)%Z with (- (e0 + 1) + 1)%Z in Hlt by lia.
    rewrite Z.pow_add_r in Hlt by lia. rewrite Z.pow_0_r in *. lia.
Qed.

Lemma round_pos_spec (n d : positive) :
  (0 < round_pos n d)%Q ∧
  (Qabs (round_pos n d - (Zpos n # d)) <= (Zpos n # d) * (1 # 9007199254740992))%Q.
Proof.
  unfold round_pos.
  set (e0 := (Z.log2 (Zpos n) - Z.log2 (Zpos d) - 53)%Z).
  set (e := if (Zpos n * 2 ^ Z.max 0 (- e0) <? 2 ^ 53 * (Zpos d * 2 ^ Z.max 0 e0))%Z
            then e0 else (e0 + 1)%Z).
  destruct (scale_bounds n d e eq_refl) as [Hden Hnum].
  cbv beta in Hden, Hnum.
  pose proof (round_half_even_near (Zpos n * 2 ^ Z.max 0 (- e)) _ Hden) as Hm.
  assert (0 < 2 ^ Z.max 0 e)%Z as HA by (apply Z.pow_pos_nonneg; lia).
  assert (0 < 2 ^ Z.max 0 (- e))%Z as HB by (apply Z.pow_pos_nonneg; lia).
  assert (Zpos (Z.to_pos (2 ^ Z.max 0 (- e))) = 2 ^ Z.max 0 (- e))%Z as EB
    by (by apply Z2Pos.id).
  rewrite Qred_correct.
  change (2 ^ 52)%Z with 4503599627370496%Z in Hnum.
  set (B := (2 ^ Z.max 0 (- e))%Z) in *. set (A := (2 ^ Z.max 0 e)%Z) in *.
  set (m := round_half_even (Zpos n * B) (Zpos d * A)) in *.
  clearbody m. clearbody A B. clear e e0.
  set (X := (m * (Zpos d * A) - Zpos n * B)%Z) in *.
  assert (0 < m)%Z as Hmpos.
  { destruct (Z.le_gt_cases m 0) as [Hle|]; [exfalso|lia].
    assert (m * (Zpos d * A) <= 0)%Z by (apply Z.mul_nonpos_nonneg; lia).
    unfold X in Hm. lia. }
  assert (X * 9007199254740992 <= Zpos n * B)%Z as H1 by lia.
  assert (- (Zpos n * B) <= X * 9007199254740992)%Z as H2 by lia.
  split.
  - unfold Qlt. cbn [Qnum Qden]. nia.
  - apply Qabs_Qle_condition. unfold Qle, Qminus, Qplus, Qopp, Qmult.
    cbn [Qnum Qden]. rewrite !Pos2Z.inj_mul, EB.
    assert ((m * A * Zpos d + - Zpos n * B) = X)%Z as -> by (unfold X; ring).
    pose proof (Pos2Z.is_pos d). split; nia.
Qed.

Lemma binary64_Qeq (x y : Q) : (x == y)%Q → binary64 x = binary64 y.
Proof. intros E. unfold binary64. by rewrite (Qred_complete x y E). Qed.

Lemma binary64_opp (x : Q) : binary64 (- x) = (- binary64 x)%Q.
Proof.
  unfold binary64. rewrite Qred_opp.
  destruct (Qred x) as [[|n|n] d]; cbn [Qopp Qnum Qden]; simpl Z.opp; [done|done|].
  change (- Z.neg n)%Z with (Z.pos n). cbv iota.
  generalize (round_pos n d). by intros [[|a|a] b].
Qed.

Lemma binary64_cases (x : Q) :
  ((x == 0)%Q ∧ binary64 x = 0%Q) ∨
  ((0 < x)%Q ∧ ∃ n d, (x == Zpos n # d)%Q ∧ binary64 x = round_pos n d) ∨
  ((x < 0)%Q ∧ ∃ n d, (x == Zneg n # d)%Q ∧ binary64 x = (- round_pos n d)%Q).
Proof.
  unfold binary64. pose proof (Qred_correct x) as E.
  destruct (Qred x) as [[|n|n] d]; cbn [Qnum Qden].
  - left. split; [|done]. by rewrite <- E.
  - right. left. split; [by rewrite <- E|]. exists n, d. split; [by rewrite <- E|done].
  - right. right. split; [by rewrite <- E|]. exists n, d. split; [by rewrite <- E|done].
Qed.

Lemma binary64_sign (x : Q) :
  ((0 < binary64 x)%Q ↔ (0 < x)%Q) ∧ ((binary64 x < 0)%Q ↔ (x < 0)%Q) ∧
  ((binary64 x == 0)%Q ↔ (x == 0)%Q).
Proof.
  destruct (binary64_cases x) as [[E ->]|[(H & n & d & E & ->)|(H & n & d & E & ->)]];
    try (pose proof (proj1 (round_pos_spec n d)) as Hpos).
  - rewrite E. split_and!; split; (done || lra).
  - split_and!; split; intros; lra.
  - split_and!; split; intros; lra.
Qed.

Lemma binary64_error (x : Q) :
  (Qabs (binary64 x - x) <= Qabs x * (1 # 9007199254740992))%Q.
Proof.
  destruct (binary64_cases x) as [[E ->]|[(H & n & d & E & ->)|(H & n & d & E & ->)]].
  - rewrite E. by vm_compute.
  - rewrite E. rewrite (Qabs_pos (Zpos n # d)) by (rewrite <- E; lra).
    apply round_pos_spec.
  - rewrite E.
    assert (- round_pos n d - (Zneg n # d) == - (round_pos n d - (Zpos n # d)))%Q as ->.
    { change (Zneg n # d) with (- (Zpos n # d))%Q. ring. }
    rewrite Qabs_opp. change (Zneg n # d) with (- (Zpos n # d))%Q. rewrite Qabs_opp.
    rewrite (Qabs_pos (Zpos n # d)) by done.
    apply round_pos_spec.
Qed.

Lemma binary64_abs_bounds (x : Q) :
  (Qabs x * (1 - (1 # 9007199254740992)) <= Qabs (binary64 x))%Q ∧
  (Qabs (binary64 x) <= Qabs x * (1 + (1 # 9007199254740992)))%Q.
Proof.
  pose proof (binary64_error x) as E.
  pose proof (Qabs_triangle_reverse x (binary64 x)) as H1.
  pose proof (Qabs_triangle_reverse (binary64 x) x) as H2.
  rewrite (Qabs_Qminus x (binary64 x)) in H1.
  split; lra.
Qed.

(** On these inputs [binary64] and the subtraction rounded by it are the
    kernel's binary64 literal and subtraction: the threshold 0.001, the
    weights 5.001 and 5.0011 and their distance to 5.0, the inexact
    subtraction 0.3 - 0.1, and two ties (2^53 + 1 and 2^53 + 3). *)
Example binary64_agrees_with_kernel :
  kernel_value (kernel_float 1 1000) = Some (binary64 0.001) ∧
  kernel_value (kernel_float 5001 1000) = Some (binary64 5.001) ∧
  kernel_value (PrimFloat.sub (kernel_float 5001 1000) (kernel_float 5 1))
  = Some (binary64 (binary64 5.001 - 5)) ∧
  kernel_value (PrimFloat.sub (kernel_float 50011 10000) (kernel_float 5 1))
  = Some (binary64 (binary64 5.0011 - 5)) ∧
  kernel_value (PrimFloat.sub (kernel_float 3 10) (kernel_float 1 10))
  = Some (binary64 (binary64 0.3 - binary64 0.1)) ∧
  kernel_value (kernel_float 9007199254740993 1) = Some (binary64 9007199254740993) ∧
  kernel_value (kernel_float 9007199254740995 1) = Some (binary64 9007199254740995).
Proof. repeat split; vm_compute; reflexivity. Qed.

(** ** [sort_values] orders by a total preorder *)

#[global] Instance weight_diff_ge_trans : Transitive weight_diff_ge.
Proof. intros r1 r2 r3 H12 H23. unfold weight_diff_ge in *. by eapply Qle_trans. Qed.

#[global] Instance weight_diff_ge_total : Total weight_diff_ge.
Proof.
  intros r1 r2. unfold weight_diff_ge.
  destruct (Qlt_le_dec (Changed.weight_diff r1) (Changed.weight_diff r2)) as [H|H].
  - right. by apply Qlt_le_weak.
  - by left.
Qed.

Lemma insert_row_Permutation (r : Changed.row) (sorted : list Changed.row) :
  insert_row r sorted ≡ₚ r :: sorted.
Proof.
  induction sorted as [|r' rest IH]; [done|]. cbn [insert_row].
  destruct (decide (weight_diff_ge r r')); [done|]. by rewrite IH, Permutation_swap.
Qed.

Lemma sort_values_Permutation (df : list Changed.row) : sort_values df ≡ₚ df.
Proof.
  unfold sort_values. induction df as [|r df IH]; [done|].
  cbn [foldr]. by rewrite insert_row_Permutation, IH.
Qed.

Lemma Sorted_insert_row (r : Changed.row) (sorted : list Changed.row) :
  Sorted weight_diff_ge sorted → Sorted weight_diff_ge (insert_row r sorted).
Proof.
  induction 1 as [|r' rest Hrest IH Hhd]; [by repeat constructor|].
  cbn [insert_row]. destruct (decide (weight_diff_ge r r')) as [Hge|Hlt].
  - by repeat constructor.
  - constructor; [done|].
    assert (weight_diff_ge r' r) as Hge by (by destruct (total weight_diff_ge r r')).
    destruct rest as [|r'' rest]; [by constructor|]. cbn [insert_row].
    destruct (decide (weight_diff_ge r r'')); constructor; [done|].
    by apply HdRel_inv in Hhd.
Qed.

Lemma Sorted_sort_values (df : list Changed.row) : Sorted weight_diff_ge (sort_values df).
Proof.
  unfold sort_values. induction df as [|r df IH]; [constructor|].
  cbn [foldr]. by apply Sorted_insert_row.
Qed.

Lemma Qgtb_lt (x y : Q) : Qgtb x y = true ↔ (y < x)%Q.
Proof.
  unfold Qgtb. rewrite negb_true_iff, <- not_true_iff_false, Qle_bool_iff.
  split; [apply Qnot_le_lt | apply Qlt_not_le].
Qed.

Lemma Qabs_pos_iff (x : Q) : (0 < Qabs x)%Q ↔ ¬ (x == 0)%Q.
Proof.
  split.
  - intros H E. rewrite E in H. by apply Qlt_irrefl in H.
  - intros H. destruct (Qlt_le_dec 0 (Qabs x)) as [|Hle]; [done|].
    destruct H. apply Qabs_Qle_condition in Hle as [H1 H2].
    by apply Qle_antisym.
Qed.

(** The mask, in the words of the comparison it performs. *)
Lemma changed_mask_iff (r : Changed.row) :
  changed_mask r = true ↔
  (binary64 0.001 < Qabs (Changed.weight_diff r))%Q ∨ ¬ (Changed.shares_diff r == 0)%Q.
Proof.
  unfold changed_mask. rewrite orb_true_iff, !Qgtb_lt. by rewrite Qabs_pos_iff.
Qed.

(** The float difference is zero exactly when the two floats are equal. *)
Lemma binary64_diff_zero (x y : Q) : (binary64 (x - y) == 0)%Q ↔ (x == y)%Q.
Proof.
  rewrite (proj2 (proj2 (binary64_sign (x - y)))). split; intros; lra.
Qed.

(** Away from the threshold the rounding of the difference plays no part. *)
Lemma weight_mask_above (x : Q) :
  (0.0011 <= Qabs x)%Q → (binary64 0.001 < Qabs (binary64 x))%Q.
Proof.
  intros Hx. destruct (binary64_abs_bounds x) as [Hlow _].
  assert (binary64 0.001 < 0.0011 * (1 - (1 # 9007199254740992)))%Q as Hc
    by (vm_compute; reflexivity).
  lra.
Qed.

Lemma weight_mask_below (x : Q) :
  (Qabs x <= 0.0009)%Q → ¬ (binary64 0.001 < Qabs (binary64 x))%Q.
Proof.
  intros Hx. destruct (binary64_abs_bounds x) as [_ Hup].
  assert (0.0009 * (1 + (1 # 9007199254740992)) < binary64 0.001)%Q as Hc
    by (vm_compute; reflexivity).
  lra.
Qed.

(** ** Filtering *)

Lemma filter_all {A} (P : A → Prop) `{∀ x, Decision (P x)} (l : list A) :
  Forall P l → filter P l = l.
Proof.
  induction 1 as [|x l Hx _ IH]; [done|].
  by rewrite filter_cons, decide_True, IH.
Qed.

Lemma filter_none {A} (P : A → Prop) `{∀ x, Decision (P x)} (l : list A) :
  Forall (λ x, ¬ P x) l → filter P l = [].
Proof.
  induction 1 as [|x l Hx _ IH]; [done|].
  by rewrite filter_cons, decide_False.
Qed.

(** ** [unique] *)

Lemma elem_of_unique (x : string) (l : list string) : x ∈ unique l ↔ x ∈ l.
Proof.
  induction l as [|y l IH]; simpl; [done|].
  rewrite !elem_of_cons, list_elem_of_filter, IH.
  destruct (decide (x = y)); tauto.
Qed.

Lemma NoDup_unique (l : list string) : NoDup (unique l).
Proof.
  induction l as [|y l IH]; simpl; [constructor|].
  constructor; [|by apply NoDup_filter].
  rewrite list_elem_of_filter. tauto.
Qed.

Lemma unique_NoDup (l : list string) : NoDup l → unique l = l.
Proof.
  induction 1 as [|y l Hy _ IH]; simpl; [done|].
  rewrite IH. f_equal. apply filter_all, Forall_forall. 
  intros x Hx ->. done.
Qed.

Lemma unique_Permutation (l k : list string) :
  l ≡ₚ k → unique l ≡ₚ unique k.
Proof.
  intros Hlk. apply NoDup_Permutation; [apply NoDup_unique..|].
  intros x. by rewrite !elem_of_unique, Hlk.
Qed.

(** ** [difference] and [intersection] as sets of labels *)

Lemma elem_of_difference_index (x : string) (self other : list string) :
  x ∈ difference self other ↔ x ∈ self ∧ x ∉ other.
Proof.
  unfold difference. repeat case_bool_decide; subst.
  - rewrite elem_of_nil. tauto.
  - rewrite elem_of_unique, elem_of_nil. tauto.
  - rewrite merge_sort_Permutation, list_elem_of_filter, elem_of_unique. tauto.
Qed.

Lemma NoDup_difference (self other : list string) : NoDup (difference self other).
Proof.
  unfold difference. repeat case_bool_decide.
  - constructor.
  - apply NoDup_unique.
  - rewrite merge_sort_Permutation. apply NoDup_filter, NoDup_unique.
Qed.

(** The labels come out in ascending order unless pandas took the
    shortcut for an empty [other]. *)
Lemma Sorted_difference (self other : list string) :
  other ≠ [] → Sorted String.le (difference self other).
Proof.
  intros Hne. unfold difference.
  case_bool_decide; [constructor|]. case_bool_decide; [done|].
  apply (Sorted_merge_sort String.le).
Qed.

Lemma difference_nil_r (self : list string) :
  NoDup self → difference self [] = self.
Proof.
  intros Hnd. unfold difference.
  case_bool_decide; [by subst|]. rewrite bool_decide_eq_true_2 by done.
  by apply unique_NoDup.
Qed.

(** Sorted output depends on the sets of labels only. *)
Lemma difference_Permutation (self self' other other' : list string) :
  self ≡ₚ self' → other ≡ₚ other' → other ≠ [] →
  difference self other = difference self' other'.
Proof.
  intros Hs Ho Hne.
  assert (other' ≠ []) as Hne' by (intros ->; by apply Permutation_nil_r in Ho).
  apply (Sorted_unique String.le); [by apply Sorted_difference..|].
  apply NoDup_Permutation; [apply NoDup_difference..|].
  intros x. by rewrite !elem_of_difference_index, Hs, Ho.
Qed.

Lemma elem_of_intersection_index (x : string) (self other : list string) :
  x ∈ intersection self other ↔ x ∈ self ∧ x ∈ other.
Proof.
  unfold intersection. rewrite list_elem_of_filter, elem_of_unique. tauto.
Qed.

Lemma NoDup_intersection (self other : list string) : NoDup (intersection self other).
Proof. apply NoDup_filter, NoDup_unique. Qed.

(** ** [loc] *)

Lemma elem_of_loc (r : Holding) (labels : list string) (frame : list Holding) :
  r ∈ loc labels frame ↔ stock_id r ∈ labels ∧ r ∈ frame.
Proof.
  unfold loc, rows_of. rewrite list_elem_of_bind. split.
  - intros (l & Hr & Hl). apply list_elem_of_filter in Hr as [<- Hr]. done.
  - intros [Hl Hr]. exists (stock_id r). by rewrite list_elem_of_filter.
Qed.

Lemma elem_of_index (x : string) (frame : list Holding) :
  x ∈ index frame ↔ ∃ r, r ∈ frame ∧ stock_id r = x.
Proof.
  unfold index. rewrite list_elem_of_fmap. split.
  - intros (r & -> & Hr). by exists r.
  - intros (r & Hr & <-). by exists r.
Qed.

Lemma elem_of_index_loc (x : string) (labels : list string) (frame : list Holding) :
  x ∈ index (loc labels frame) ↔ x ∈ labels ∧ x ∈ index frame.
Proof.
  rewrite !elem_of_index. setoid_rewrite elem_of_loc. split.
  - intros (r & [Hl Hr] & <-). eauto.
  - intros [Hl (r & Hr & <-)]. eauto.
Qed.

Lemma loc_cons (l : string) (labels : list string) (frame : list Holding) :
  loc (l :: labels) frame = (rows_of l frame ++ loc labels frame)%list.
Proof. done. Qed.

Lemma index_app (f1 f2 : list Holding) : index (f1 ++ f2) = (index f1 ++ index f2)%list.
Proof. apply fmap_app. Qed.

Lemma index_rows_of (l : string) (frame : list Holding) :
  index (rows_of l frame) = replicate (length (rows_of l frame)) l.
Proof.
  unfold rows_of. induction frame as [|r frame IH]; [done|].
  rewrite filter_cons. case_decide; [|done]. simpl. rewrite <- IH. by subst.
Qed.

(** A label that is not repeated selects one row. *)
Lemma index_loc_once (labels : list string) (frame : list Holding) :
  (∀ l, l ∈ labels → length (rows_of l frame) = 1) →
  index (loc labels frame) = labels.
Proof.
  induction labels as [|l labels IH]; intros H; [done|].
  rewrite loc_cons, index_app, index_rows_of, IH, H; [done|by left|].
  intros l' Hl'. apply H. by right.
Qed.

Lemma rows_of_NoDup (l : string) (frame : list Holding) :
  NoDup (index frame) → l ∈ index frame → length (rows_of l frame) = 1.
Proof.
  unfold rows_of, index. induction frame as [|r frame IH]; simpl.
  - by intros _ ?%elem_of_nil.
  - rewrite NoDup_cons, filter_cons. intros [Hr Hnd] Hl. case_decide as Hd; simpl.
    + subst l. f_equal. rewrite filter_none; [done|]. apply Forall_forall.
      intros r' Hr' E. apply Hr. rewrite <- E. by apply list_elem_of_fmap_2.
    + apply IH; [done|]. apply elem_of_cons in Hl as [?|?]; [by subst|done].
Qed.

Lemma rows_of_Permutation (l : string) (frame frame' : list Holding) :
  NoDup (index frame) → frame ≡ₚ frame' → rows_of l frame = rows_of l frame'.
Proof.
  intros Hnd Hp.
  assert (rows_of l frame ≡ₚ rows_of l frame') as Hq by (unfold rows_of; by rewrite Hp).
  assert (NoDup (index frame')) as Hnd' by (unfold index; by rewrite <- Hp).
  destruct (decide (l ∈ index frame)) as [Hl|Hl].
  - pose proof (rows_of_NoDup l frame Hnd Hl) as H1.
    destruct (rows_of l frame) as [|r [|??]]; simplify_eq/=.
    by apply Permutation_singleton_l in Hq.
  - assert (rows_of l frame = []) as Hnil.
    { apply filter_none, Forall_forall. intros r Hr E. apply Hl.
      rewrite <- E. by apply list_elem_of_fmap_2. }
    rewrite Hnil in *. by apply Permutation_nil_l in Hq.
Qed.

Lemma loc_Permutation (labels : list string) (frame frame' : list Holding) :
  NoDup (index frame) → frame ≡ₚ frame' → loc labels frame = loc labels frame'.
Proof.
  intros Hnd Hp. induction labels as [|l labels IH]; [done|].
  rewrite !loc_cons, IH. f_equal. by apply rows_of_Permutation.
Qed.

(** Selecting every label of a frame without repeated labels, in the
    order of the frame, gives the frame back. *)
Lemma rows_of_fresh (l : string) (frame : list Holding) :
  l ∉ index frame → rows_of l frame = [].
Proof.
  intros Hl. apply filter_none, Forall_forall. intros r Hr E. apply Hl.
  apply elem_of_index. eauto.
Qed.

Lemma index_cons (r : Holding) (frame : list Holding) :
  index (r :: frame) = stock_id r :: index frame.
Proof. done. Qed.

Lemma loc_index_id (frame : list Holding) :
  NoDup (index frame) → loc (index frame) frame = frame.
Proof.
  induction frame as [|r frame IH]; [done|].
  rewrite index_cons, NoDup_cons. intros [Hr Hnd].
  rewrite loc_cons. unfold rows_of at 1.
  rewrite filter_cons, decide_True by done.
  fold (rows_of (stock_id r) frame). rewrite rows_of_fresh by done.
  simpl. f_equal.
  transitivity (loc (index frame) frame); [|by apply IH]. unfold loc.
  apply Forall_bind_ext, Forall_forall. intros l Hl. unfold rows_of.
  rewrite filter_cons, decide_False; [done|].
  intros E. apply Hr. by rewrite E.
Qed.

(** ** Rows of one fund *)

Lemma set_index_Permutation (etf : string) (rows rows' : list (string * Holding)) :
  rows ≡ₚ rows' → set_index etf rows ≡ₚ set_index etf rows'.
Proof. intros Hp. unfold set_index. by rewrite Hp. Qed.

Lemma elem_of_set_index (etf : string) (r : Holding) (rows : list (string * Holding)) :
  r ∈ set_index etf rows ↔ (etf, r) ∈ rows.
Proof.
  unfold set_index. rewrite list_elem_of_fmap. split.
  - intros ([e r'] & -> & [E Hr]%list_elem_of_filter). simpl in *. by subst.
  - intros Hr. exists (etf, r). by rewrite list_elem_of_filter.
Qed.

Lemma set_index_nil (etf : string) (rows : list (string * Holding)) :
  set_index etf rows = [] ↔ etf ∉ rows.*1.
Proof.
  split.
  - intros Hnil ([e r] & E & Hr)%list_elem_of_fmap. simpl in E. subst e.
    apply elem_of_set_index in Hr. rewrite Hnil in Hr. by apply elem_of_nil in Hr.
  - intros Hetf. destruct (set_index etf rows) as [|r ?] eqn:E; [done|].
    destruct Hetf. assert (r ∈ set_index etf rows) as Hr by (rewrite E; left).
    apply elem_of_set_index in Hr. apply list_elem_of_fmap. by exists (etf, r).
Qed.

Lemma tagged_rows_ensure_ETF (df : DataFrame) :
  tagged_rows (ensure_ETF df) = tagged_rows df.
Proof. by destruct df. Qed.

(** Within a frame without repeated labels a label names its row. *)
Lemma NoDup_index_inj (frame : list Holding) (r1 r2 : Holding) :
  NoDup (index frame) → r1 ∈ frame → r2 ∈ frame → stock_id r1 = stock_id r2 → r1 = r2.
Proof.
  induction frame as [|r frame IH]; [by intros _ ?%elem_of_nil|].
  rewrite index_cons, NoDup_cons, !elem_of_cons. intros [Hr Hnd] [->|H1] [->|H2] E; auto.
  - destruct Hr. apply elem_of_index. eauto.
  - destruct Hr. apply elem_of_index. eauto.
Qed.

(** ** Aligned rows *)

Lemma align_Some (a b : list Holding) (common : list (Holding * Holding)) :
  align a b = Some common ↔ index a = index b ∧ common = zip a b.
Proof.
  unfold align. case_bool_decide; split; intros H'; simplify_eq; try done.
  - by destruct H' as [_ ->].
  - by destruct H'.
Qed.

Lemma zip_same_label (a b : list Holding) (c p : Holding) :
  index a = index b → (c, p) ∈ zip a b → stock_id c = stock_id p.
Proof.
  revert b. induction a as [|x a IH]; intros [|y b] E Hz;
    try (by apply elem_of_nil in Hz).
  rewrite !index_cons in E. injection E as Hxy Hab.
  apply elem_of_cons in Hz as [?|?]; [by simplify_eq | by eapply IH].
Qed.

Lemma zip_partner (a b : list Holding) (c : Holding) :
  index a = index b → c ∈ a → ∃ p, (c, p) ∈ zip a b.
Proof.
  revert b. induction a as [|x a IH]; intros [|y b] E Hc;
    try (by apply elem_of_nil in Hc); try done.
  rewrite !index_cons in E. injection E as Hxy Hab.
  apply elem_of_cons in Hc as [->|Hc].
  - exists y. left.
  - destruct (IH b Hab Hc) as [p Hp]. exists p. by right.
Qed.

Lemma fmap_stock_id_diff_row (a b : list Holding) :
  index a = index b → Changed.stock_id <$> (diff_row <$> zip a b) = index a.
Proof.
  revert b. induction a as [|x a IH]; intros [|y b] E; try done.
  rewrite !index_cons in E. injection E as Hxy Hab.
  rewrite index_cons, <- (IH b Hab). done.
Qed.

(** ** One fund *)

Section one_fund.
Variables (etf : string) (df_curr df_prev : list (string * Holding)).

Lemma common_once_forall :
  let curr_etf := set_index etf df_curr in
  let prev_etf := set_index etf df_prev in
  common_once etf df_curr df_prev ↔
  ∀ l, l ∈ index curr_etf → l ∈ index prev_etf →
    length (rows_of l curr_etf) = 1 ∧ length (rows_of l prev_etf) = 1.
Proof. unfold common_once. simpl. by rewrite Forall_forall. Qed.

Lemma NoDup_common_once :
  NoDup (index (set_index etf df_curr)) → NoDup (index (set_index etf df_prev)) →
  common_once etf df_curr df_prev.
Proof.
  intros Hc Hp. apply common_once_forall. intros l Hlc Hlp.
  split; by apply rows_of_NoDup.
Qed.

Lemma common_once_index :
  let curr_etf := set_index etf df_curr in
  let prev_etf := set_index etf df_prev in
  let common_stocks := intersection (index curr_etf) (index prev_etf) in
  common_once etf df_curr df_prev →
  index (loc common_stocks curr_etf) = common_stocks ∧
  index (loc common_stocks prev_etf) = common_stocks.
Proof.
  intros curr_etf prev_etf common_stocks H.
  pose proof (proj1 common_once_forall H) as H'.
  split; apply index_loc_once;
    intros l [Hc Hp]%elem_of_intersection_index; by apply H'.
Qed.

(** The loop body, unfolded. *)
Lemma compare_etf_Some (d : Delta) :
  let curr_etf := set_index etf df_curr in
  let prev_etf := set_index etf df_prev in
  let common_stocks := intersection (index curr_etf) (index prev_etf) in
  compare_etf etf df_curr df_prev = Some d ↔
  index (loc common_stocks curr_etf) = index (loc common_stocks prev_etf) ∧
  d = {| new := loc (difference (index curr_etf) (index prev_etf)) curr_etf;
         exit := loc (difference (index prev_etf) (index curr_etf)) prev_etf;
         changed := sort_values (filter (λ r, changed_mask r = true)
           (diff_row <$> zip (loc common_stocks curr_etf) (loc common_stocks prev_etf))) |}.
Proof.
  intros curr_etf prev_etf common_stocks. unfold compare_etf.
  fold curr_etf prev_etf. fold common_stocks.
  destruct (align _ _) as [common|] eqn:E; simpl.
  - apply align_Some in E as [E ->]. split; [intros [= <-]; done | by intros [_ ->]].
  - split; [done|]. intros [E' _].
    assert (is_Some (align (loc common_stocks curr_etf) (loc common_stocks prev_etf)))
      as [? Hs].
    { eexists. apply align_Some. done. }
    congruence.
Qed.

Lemma compare_etf_returns :
  common_once etf df_curr df_prev → is_Some (compare_etf etf df_curr df_prev).
Proof.
  intros [E1 E2]%common_once_index. eexists. apply compare_etf_Some.
  split; [congruence | done].
Qed.

(** The pairs the comparison runs over, when no label is repeated. *)
Lemma elem_of_zip_common (c p : Holding) :
  let curr_etf := set_index etf df_curr in
  let prev_etf := set_index etf df_prev in
  let common_stocks := intersection (index curr_etf) (index prev_etf) in
  NoDup (index curr_etf) → NoDup (index prev_etf) →
  (c, p) ∈ zip (loc common_stocks curr_etf) (loc common_stocks prev_etf) ↔
  c ∈ curr_etf ∧ p ∈ prev_etf ∧ stock_id c = stock_id p.
Proof.
  intros curr_etf prev_etf common_stocks Hc Hp.
  destruct (common_once_index (NoDup_common_once Hc Hp)) as [E1 E2].
  fold curr_etf prev_etf in E1, E2. fold common_stocks in E1, E2.
  assert (index (loc common_stocks curr_etf) = index (loc common_stocks prev_etf)) as E
    by congruence.
  split.
  - intros Hz. split_and!.
    + apply elem_of_zip_l in Hz. by apply elem_of_loc in Hz as [_ ?].
    + apply elem_of_zip_r in Hz. by apply elem_of_loc in Hz as [_ ?].
    + by eapply zip_same_label.
  - intros (Hcin & Hpin & Eid).
    assert (stock_id c ∈ common_stocks) as Hl.
    { apply elem_of_intersection_index. split; apply elem_of_index; eauto. }
    destruct (zip_partner (loc common_stocks curr_etf) (loc common_stocks prev_etf) c E)
      as [p' Hp']; [by apply elem_of_loc|].
    assert (p' = p) as ->; [|done].
    apply (NoDup_index_inj prev_etf); [done| |done|].
    + apply elem_of_zip_r in Hp'. by apply elem_of_loc in Hp' as [_ ?].
    + apply zip_same_label in Hp'; [congruence|done].
Qed.
End one_fund.

(** ** The loop over the funds *)

Lemma for_etfs_Some (etfs : list string) (df_curr df_prev : list (string * Holding))
    (acc changes : gmap string Delta) :
  for_etfs etfs df_curr df_prev acc = Some changes →
  ∀ etf, changes !! etf =
    if decide (etf ∈ etfs) then compare_etf etf df_curr df_prev else acc !! etf.
Proof.
  revert acc. induction etfs as [|e etfs IH]; intros acc Hfor etf; simpl in Hfor.
  - injection Hfor as <-. rewrite decide_False; [done|]. apply not_elem_of_nil.
  - destruct (compare_etf e df_curr df_prev) as [d|] eqn:Ed; simpl in Hfor; [|done].
    rewrite (IH _ Hfor).
    destruct (decide (etf ∈ etfs)) as [Hin|Hin].
    + rewrite decide_True; [done|by right].
    + destruct (decide (etf = e)) as [->|Hne].
      * rewrite decide_True by left. by rewrite lookup_insert_eq.
      * rewrite decide_False; [by rewrite lookup_insert_ne|].
        by intros [?|?]%elem_of_cons.
Qed.

Lemma for_etfs_returns (etfs : list string) (df_curr df_prev : list (string * Holding))
    (acc : gmap string Delta) :
  (∀ etf, etf ∈ etfs → is_Some (compare_etf etf df_curr df_prev)) →
  is_Some (for_etfs etfs df_curr df_prev acc).
Proof.
  revert acc. induction etfs as [|e etfs IH]; intros acc H; simpl; [done|].
  destruct (H e) as [d ->]; [left|]. simpl. apply IH. intros etf Hetf. apply H. by right.
Qed.

(** What the returned dictionary holds: an entry for each fund of the
    current table, and no other. *)
Lemma compare_holdings_lookup (df_curr df_prev : DataFrame) (ch : gmap string Delta)
    (etf : string) :
  changes (compare_holdings df_curr df_prev) = Some ch →
  ch !! etf =
    if decide (etf ∈ (tagged_rows df_curr).*1)
    then compare_etf etf (tagged_rows df_curr) (tagged_rows df_prev)
    else None.
Proof.
  unfold compare_holdings; simpl. rewrite !tagged_rows_ensure_ETF. intros H.
  rewrite (for_etfs_Some _ _ _ _ _ H).
  destruct (decide (etf ∈ unique _)) as [Hin|Hin]; rewrite elem_of_unique in Hin.
  - by rewrite decide_True.
  - by rewrite decide_False.
Qed.

Lemma compare_holdings_returns (df_curr df_prev : DataFrame) :
  Forall (λ etf, common_once etf (tagged_rows df_curr) (tagged_rows df_prev))
         (tagged_rows df_curr).*1 →
  is_Some (changes (compare_holdings df_curr df_prev)).
Proof.
  rewrite Forall_forall. intros H.
  unfold compare_holdings; cbn [changes]. rewrite !tagged_rows_ensure_ETF.
  apply for_etfs_returns. intros etf Hetf. rewrite elem_of_unique in Hetf.
  apply compare_etf_returns. by apply H.
Qed.

Lemma compare_holdings_entry (df_curr df_prev : DataFrame) (ch : gmap string Delta)
    (etf : string) (d : Delta) :
  changes (compare_holdings df_curr df_prev) = Some ch → ch !! etf = Some d →
  etf ∈ (tagged_rows df_curr).*1 ∧
  compare_etf etf (tagged_rows df_curr) (tagged_rows df_prev) = Some d.
Proof.
  intros Hch Hd. rewrite (compare_holdings_lookup _ _ _ _ Hch) in Hd.
  by case_decide.
Qed.

Lemma loc_nil_r (labels : list string) : loc labels [] = [].
Proof. induction labels as [|l labels IH]; [done|]. by rewrite loc_cons, IH. Qed.

Lemma nil_no_elem {A} (l : list A) : (∀ x, x ∉ l) → l = [].
Proof. destruct l as [|x l]; [done|]. intros H. destruct (H x). left. Qed.

Lemma rows_of_app (l : string) (f1 f2 : list Holding) :
  rows_of l (f1 ++ f2) = (rows_of l f1 ++ rows_of l f2)%list.
Proof. apply filter_app. Qed.

Lemma rows_of_loc (l : string) (labels : list string) (frame : list Holding) :
  NoDup labels → l ∈ labels → rows_of l (loc labels frame) = rows_of l frame.
Proof.
  induction 1 as [|x labels Hx Hnd IH]; [by intros ?%elem_of_nil|].
  intros Hl. rewrite loc_cons, rows_of_app.
  destruct (decide (l = x)) as [->|Hne].
  - replace (rows_of x (loc labels frame)) with (@nil Holding).
    + rewrite app_nil_r. unfold rows_of. apply filter_all, Forall_forall.
      by intros r [? _]%list_elem_of_filter.
    + symmetry. apply rows_of_fresh. by intros [? _]%elem_of_index_loc.
  - apply elem_of_cons in Hl as [?|Hl]; [done|]. rewrite IH by done.
    replace (rows_of l (rows_of x frame)) with (@nil Holding); [done|].
    symmetry. apply filter_none, Forall_forall.
    intros r [Hr _]%list_elem_of_filter. congruence.
Qed.

Lemma intersection_nil_r (self : list string) : intersection self [] = [].
Proof.
  apply nil_no_elem. intros x [_ Hx]%elem_of_intersection_index.
  by apply elem_of_nil in Hx.
Qed.

(** ** The funds of the result *)

Section newly_monitored.
Variables (etf : string) (df_curr df_prev : list (string * Holding)).
Hypothesis Hprev : etf ∉ df_prev.*1.

Lemma compare_etf_newly_monitored :
  ∃ d, compare_etf etf df_curr df_prev = Some d ∧
    exit d = [] ∧ changed d = [] ∧
    (∀ r, r ∈ new d ↔ r ∈ set_index etf df_curr) ∧
    (NoDup (index (set_index etf df_curr)) → new d = set_index etf df_curr).
Proof.
  apply set_index_nil in Hprev.
  assert (common_once etf df_curr df_prev) as Honce.
  { apply common_once_forall. intros l _. rewrite Hprev. by intros ?%elem_of_nil. }
  destruct (compare_etf_returns etf df_curr df_prev Honce) as [d Hd].
  exists d. split; [done|].
  apply compare_etf_Some in Hd as [_ ->]. rewrite Hprev. simpl.
  rewrite !loc_nil_r. split_and!; [done| |..].
  - by rewrite intersection_nil_r.
  - intros r. rewrite elem_of_loc, elem_of_difference_index, elem_of_index.
    split; [tauto|]. intros Hr. split_and!; eauto. apply not_elem_of_nil.
  - intros Hnd. rewrite difference_nil_r by done. by apply loc_index_id.
Qed.
End newly_monitored.

(** ** The changed rows of a fund whose labels are not repeated *)

Section changed_rows.
Variables (etf : string) (df_curr df_prev : list (string * Holding)) (d : Delta).
Hypothesis Hcurr : NoDup (index (set_index etf df_curr)).
Hypothesis Hprev : NoDup (index (set_index etf df_prev)).
Hypothesis Hd : compare_etf etf df_curr df_prev = Some d.

Lemma elem_of_changed (r : Changed.row) :
  r ∈ changed d ↔
  changed_mask r = true ∧
  ∃ c p, c ∈ set_index etf df_curr ∧ p ∈ set_index etf df_prev ∧
         stock_id c = stock_id p ∧ r = diff_row (c, p).
Proof.
  apply compare_etf_Some in Hd as [_ ->]. simpl.
  rewrite sort_values_Permutation, list_elem_of_filter, list_elem_of_fmap.
  split.
  - intros [Hm ([c p] & -> & Hz)]. split; [done|]. exists c, p.
    apply elem_of_zip_common in Hz as (? & ? & ?); done.
  - intros [Hm (c & p & Hc & Hp & E & ->)]. split; [done|]. exists (c, p).
    split; [done|]. by apply elem_of_zip_common.
Qed.

Lemma NoDup_changed : NoDup (Changed.stock_id <$> changed d).
Proof.
  apply compare_etf_Some in Hd as [E ->]. simpl. rewrite sort_values_Permutation.
  eapply sublist_NoDup; [|apply fmap_sublist, sublist_filter].
  rewrite fmap_stock_id_diff_row by done.
  destruct (common_once_index etf df_curr df_prev) as [-> _].
  - by apply NoDup_common_once.
  - apply NoDup_intersection.
Qed.
End changed_rows.

(** ** Reordering the rows of the two tables *)

Section reordered.
Variables (etf : string) (df_curr df_prev df_curr' df_prev' : list (string * Holding)).
Variables (d d' : Delta).
Hypothesis Hc : df_curr ≡ₚ df_curr'.
Hypothesis Hp : df_prev ≡ₚ df_prev'.
Hypothesis Hcurr : NoDup (index (set_index etf df_curr)).
Hypothesis Hprev : NoDup (index (set_index etf df_prev)).
Hypothesis Hd : compare_etf etf df_curr df_prev = Some d.
Hypothesis Hd' : compare_etf etf df_curr' df_prev' = Some d'.

Local Lemma index_curr_reordered :
  index (set_index etf df_curr) ≡ₚ index (set_index etf df_curr').
Proof. unfold index. by rewrite (set_index_Permutation etf _ _ Hc). Qed.

Local Lemma index_prev_reordered :
  index (set_index etf df_prev) ≡ₚ index (set_index etf df_prev').
Proof. unfold index. by rewrite (set_index_Permutation etf _ _ Hp). Qed.

Lemma new_reordered : set_index etf df_prev ≠ [] → new d' = new d.
Proof.
  intros Hne.
  apply compare_etf_Some in Hd as [_ ->], Hd' as [_ ->]. simpl.
  rewrite <- (difference_Permutation _ _ _ _ index_curr_reordered index_prev_reordered).
  - symmetry. apply loc_Permutation; [done|]. by apply set_index_Permutation.
  - unfold index. by intros ?%fmap_nil_inv.
Qed.

Lemma exit_reordered : set_index etf df_curr ≠ [] → exit d' = exit d.
Proof.
  intros Hne.
  apply compare_etf_Some in Hd as [_ ->], Hd' as [_ ->]. simpl.
  rewrite <- (difference_Permutation _ _ _ _ index_prev_reordered index_curr_reordered).
  - symmetry. apply loc_Permutation; [done|]. by apply set_index_Permutation.
  - unfold index. by intros ?%fmap_nil_inv.
Qed.

Lemma changed_reordered : changed d' ≡ₚ changed d.
Proof.
  assert (NoDup (index (set_index etf df_curr'))) as Hcurr'
    by (by rewrite <- index_curr_reordered).
  assert (NoDup (index (set_index etf df_prev'))) as Hprev'
    by (by rewrite <- index_prev_reordered).
  apply NoDup_Permutation.
  - eapply NoDup_fmap_1, (NoDup_changed etf df_curr' df_prev'); done.
  - eapply NoDup_fmap_1, (NoDup_changed etf df_curr df_prev); done.
  - intros r.
    rewrite (elem_of_changed etf df_curr' df_prev' d') by done.
    rewrite (elem_of_changed etf df_curr df_prev d) by done.
    pose proof (set_index_Permutation etf _ _ Hc) as Hc'.
    pose proof (set_index_Permutation etf _ _ Hp) as Hp'.
    split; intros [Hm (c & p & Hcin & Hpin & ?)]; (split; [done|]); exists c, p.
    + by rewrite Hc', Hp'.
    + by rewrite <- Hc', <- Hp'.
Qed.
End reordered.

Lemma for_etfs_all (etfs : list string) (df_curr df_prev : list (string * Holding))
    (acc changes : gmap string Delta) :
  for_etfs etfs df_curr df_prev acc = Some changes →
  ∀ etf, etf ∈ etfs → is_Some (compare_etf etf df_curr df_prev).
Proof.
  revert acc. induction etfs as [|e etfs IH]; intros acc Hfor etf Hetf; simpl in Hfor.
  - by apply elem_of_nil in Hetf.
  - destruct (compare_etf e df_curr df_prev) as [d|] eqn:Ed; simpl in Hfor; [|done].
    apply elem_of_cons in Hetf as [->|Hetf]; [by rewrite Ed|by eapply IH].
Qed.

Lemma compare_holdings_all (df_curr df_prev : DataFrame) (ch : gmap string Delta)
    (etf : string) :
  changes (compare_holdings df_curr df_prev) = Some ch →
  etf ∈ (tagged_rows df_curr).*1 →
  is_Some (compare_etf etf (tagged_rows df_curr) (tagged_rows df_prev)).
Proof.
  unfold compare_holdings; simpl. rewrite !tagged_rows_ensure_ETF. intros H Hetf.
  eapply for_etfs_all; [done|]. by apply elem_of_unique.
Qed.

(** ** The scenarios of the specification, evaluated *)

Example scenario_entered :
  delta_of (compare_holdings (Plain [A_1000; B_500]) (Plain [A_1000])) DEFAULT_ETF =
  Some {| new := [B_500]; exit := []; changed := [] |}.
Proof. vm_compute. reflexivity. Qed.

Example scenario_shares_changed :
  delta_of (compare_holdings (Plain [A_1200]) (Plain [A_1000])) DEFAULT_ETF =
  Some {| new := []; exit := []; changed := [diff_row (A_1200, A_1000)] |}.
Proof. vm_compute. reflexivity. Qed.

Example scenario_same_snapshot :
  delta_of (compare_holdings (Plain [A_1000; B_500]) (Plain [A_1000; B_500])) DEFAULT_ETF =
  Some {| new := []; exit := []; changed := [] |}.
Proof. vm_compute. reflexivity. Qed.

Example scenario_epsilon_above :
  delta_of (compare_holdings (Plain [A_above]) (Plain [A_1000])) DEFAULT_ETF =
  Some {| new := []; exit := []; changed := [diff_row (A_above, A_1000)] |}.
Proof. vm_compute. reflexivity. Qed.

Example scenario_epsilon_below :
  delta_of (compare_holdings (Plain [A_below]) (Plain [A_1000])) DEFAULT_ETF =
  Some {| new := []; exit := []; changed := [] |}.
Proof. vm_compute. reflexivity. Qed.

(** Rows of equal weight_diff stay in the order of the current table. *)
Example scenario_ties_keep_order :
  delta_of (compare_holdings (Plain [A_up; B_up; C_up]) (Plain [C_700; B_500; A_1000]))
           DEFAULT_ETF =
  Some {| new := []; exit := [];
          changed := [diff_row (A_up, A_1000); diff_row (B_up, B_500);
                      diff_row (C_up, C_700)] |}.
Proof. vm_compute. reflexivity. Qed.

(** At the threshold the floats decide.  The float of 5.001 is above 5.001
    and the float subtraction [5.001 - 5.0] gives 0.0010000000000003340,
    above the float of 0.001: changed.  The float of 0.001 is not above
    itself: [0.001 - 0.0] is not changed. *)
Example scenario_epsilon_5001 :
  delta_of (compare_holdings (Plain [A_5001]) (Plain [A_1000])) DEFAULT_ETF =
  Some {| new := []; exit := []; changed := [diff_row (A_5001, A_1000)] |} ∧
  Changed.weight_diff (diff_row (A_5001, A_1000)) = (1125899906843 # 1125899906842624)%Q.
Proof. split; vm_compute; reflexivity. Qed.

Example scenario_epsilon_0001 :
  delta_of (compare_holdings (Plain [A_0001]) (Plain [A_0])) DEFAULT_ETF =
  Some {| new := []; exit := []; changed := [] |}.
Proof. vm_compute. reflexivity. Qed.

(** C1, as amended: the returned dictionary has a Delta for the funds that
    tag a row of the current table and for no other fund, so a fund whose
    rows appear only in the previous table yields no Delta. The
    newly-monitored case holds: a fund of the current table without rows in
    the previous one yields Entered = its current rows, Exited and Changed
    empty. *)
Theorem compare_holdings_funds (df_curr df_prev : DataFrame) (ch : gmap string Delta)
    (etf : string) :
  changes (compare_holdings df_curr df_prev) = Some ch →
  (is_Some (ch !! etf) ↔ etf ∈ (tagged_rows df_curr).*1) ∧
  (etf ∉ (tagged_rows df_curr).*1 → ch !! etf = None) ∧
  (etf ∈ (tagged_rows df_curr).*1 → etf ∉ (tagged_rows df_prev).*1 →
   ∃ d, ch !! etf = Some d ∧ exit d = [] ∧ changed d = [] ∧
     (∀ r, r ∈ new d ↔ r ∈ set_index etf (tagged_rows df_curr)) ∧
     (NoDup (index (set_index etf (tagged_rows df_curr))) →
      new d = set_index etf (tagged_rows df_curr))).
Proof.
  intros Hch. pose proof (compare_holdings_lookup _ _ _ etf Hch) as Hl.
  split_and!.
  - rewrite Hl. case_decide as Hin.
    + split; [done|]. intros _. by eapply compare_holdings_all.
    + split; [by intros [? ?]|done].
  - intros Hin. by rewrite Hl, decide_False.
  - intros Hin Hprev. rewrite Hl, decide_True by done.
    by apply compare_etf_newly_monitored.
Qed.

Lemma compare_holdings_funds_witness :
  let df_curr := Tagged [("00982A", B_500)] in
  let df_prev := Tagged [("00981A", A_1000)] in
  let ch : gmap string Delta := {["00982A" := mkDelta [B_500] [] []]} in
  changes (compare_holdings df_curr df_prev) = Some ch ∧
  ("00981A" ∉ (tagged_rows df_curr).*1) ∧
  ch !! "00981A" = None.
Proof.
  intros df_curr df_prev ch.
  assert (changes (compare_holdings df_curr df_prev) = Some ch) as Hch
    by (vm_compute; reflexivity).
  assert ("00981A" ∉ (tagged_rows df_curr).*1) as Hout
    by (apply (bool_decide_unpack _); vm_compute; exact I).
  split_and!; [exact Hch | exact Hout |].
  exact (proj1 (proj2 (compare_holdings_funds df_curr df_prev ch "00981A" Hch)) Hout).
Defined.

(** C1, as stated, fails on the specification's own scenario: previous
    holds A, the current table is empty, and the result has no Delta at
    all. It fails likewise when the current table holds another fund. *)
Lemma dropped_fund_has_no_delta :
  let df_prev := Tagged [("00981A", A_1000)] in
  (¬ ∃ ch d, changes (compare_holdings (Tagged []) df_prev) = Some ch ∧
             ch !! "00981A" = Some d ∧
             new d = [] ∧ exit d = [A_1000] ∧ changed d = []) ∧
  (¬ ∃ ch d, changes (compare_holdings (Tagged [("00982A", B_500)]) df_prev) = Some ch ∧
             ch !! "00981A" = Some d ∧
             new d = [] ∧ exit d = [A_1000] ∧ changed d = []).
Proof.
  intros df_prev. split; intros (ch & d & Hch & Hd & _);
    vm_compute in Hch; injection Hch as <-; done.
Qed.

(** C2: with the stock ids of the fund distinct in each table, a security
    present in both is among the changed rows exactly when
    abs(weight_diff) > 0.001 or shares_diff is not zero, where weight_diff
    and shares_diff are the float differences the program computes and
    0.001 is the float of that literal.  Two floats whose difference is
    0.0011 or more are changed, two whose difference is 0.0009 or less,
    with equal shares, are not, and unequal shares are changed whatever
    the weights. *)
Theorem changed_iff (df_curr df_prev : DataFrame) (ch : gmap string Delta)
    (etf : string) (d : Delta) (c p : Holding) :
  changes (compare_holdings df_curr df_prev) = Some ch → ch !! etf = Some d →
  NoDup (index (set_index etf (tagged_rows df_curr))) →
  NoDup (index (set_index etf (tagged_rows df_prev))) →
  c ∈ set_index etf (tagged_rows df_curr) →
  p ∈ set_index etf (tagged_rows df_prev) →
  stock_id c = stock_id p →
  let weight_diff := binary64 (weight c - weight p) in
  let shares_diff := binary64 (shares c - shares p) in
  (diff_row (c, p) ∈ changed d ↔
     (binary64 0.001 < Qabs weight_diff)%Q ∨ ¬ (shares_diff == 0)%Q) ∧
  (∀ r, r ∈ changed d → Changed.stock_id r = stock_id c → r = diff_row (c, p)) ∧
  ((0.0011 <= Qabs (weight c - weight p))%Q → diff_row (c, p) ∈ changed d) ∧
  ((Qabs (weight c - weight p) <= 0.0009)%Q → (shares c == shares p)%Q →
     diff_row (c, p) ∉ changed d) ∧
  (¬ (shares c == shares p)%Q → diff_row (c, p) ∈ changed d).
Proof.
  intros Hch Hd Hcurr Hprev Hc Hp Eid weight_diff shares_diff.
  destruct (compare_holdings_entry _ _ _ _ _ Hch Hd) as [_ Hetf].
  assert (diff_row (c, p) ∈ changed d ↔
          (binary64 0.001 < Qabs weight_diff)%Q ∨ ¬ (shares_diff == 0)%Q) as Hiff.
  { rewrite (elem_of_changed etf _ _ d Hcurr Hprev Hetf), changed_mask_iff.
    cbn [diff_row Changed.weight_diff Changed.shares_diff].
    split; [tauto|]. intros Hm. split; [done|]. by exists c, p. }
  split_and!; [done| | | |].
  - intros r Hr Er.
    apply (elem_of_changed etf _ _ d Hcurr Hprev Hetf) in Hr
      as (_ & c' & p' & Hc' & Hp' & Eid' & ->). simpl in Er.
    assert (c' = c) as -> by (by apply (NoDup_index_inj _ _ _ Hcurr)).
    assert (p' = p) as -> by (apply (NoDup_index_inj _ _ _ Hprev); congruence).
    done.
  - intros Hw. apply Hiff. left. by apply weight_mask_above.
  - intros Hw Es. rewrite Hiff. intros [H|H].
    + by apply (weight_mask_below _ Hw).
    + apply H. by apply binary64_diff_zero.
  - intros Hs. apply Hiff. right. unfold shares_diff. by rewrite binary64_diff_zero.
Qed.

Lemma changed_iff_witness :
  let df_prev := Plain [A_1000] in
  let df_curr := Plain [A_1200] in
  let d := mkDelta [] [] [diff_row (A_1200, A_1000)] in
  changes (compare_holdings df_curr df_prev) = Some {[DEFAULT_ETF := d]} ∧
  diff_row (A_1200, A_1000) ∈ changed d.
Proof.
  intros df_prev df_curr d.
  assert (changes (compare_holdings df_curr df_prev) = Some {[DEFAULT_ETF := d]}) as Hch
    by (vm_compute; reflexivity).
  split; [exact Hch|].
  refine ((λ H, proj2 (proj2 (proj2 (proj2 H))) _)
    (changed_iff df_curr df_prev {[DEFAULT_ETF := d]} DEFAULT_ETF d A_1200 A_1000
       Hch _ _ _ _ _ _)).
  - by vm_compute.
  - vm_compute; reflexivity.
  - apply (bool_decide_unpack _); vm_compute; exact I.
  - apply (bool_decide_unpack _); vm_compute; exact I.
  - vm_compute. left.
  - vm_compute. left.
  - reflexivity.
Defined.

(** C3, as amended: the changed rows of every fund are sorted by
    weight_diff descending. Reordering the rows of the input tables (stock
    ids distinct within the fund) gives the same changed rows, again sorted
    by weight_diff descending, and in the same order when no two of them
    have the same weight_diff. Rows of equal weight_diff are not ordered by
    stock id. *)
Theorem changed_sorted_by_weight_diff (df_curr df_prev : DataFrame)
    (ch : gmap string Delta) (etf : string) (d : Delta) :
  changes (compare_holdings df_curr df_prev) = Some ch → ch !! etf = Some d →
  Sorted weight_diff_ge (changed d) ∧
  ∀ (df_curr' df_prev' : DataFrame) (ch' : gmap string Delta) (d' : Delta),
    tagged_rows df_curr ≡ₚ tagged_rows df_curr' →
    tagged_rows df_prev ≡ₚ tagged_rows df_prev' →
    NoDup (index (set_index etf (tagged_rows df_curr))) →
    NoDup (index (set_index etf (tagged_rows df_prev))) →
    changes (compare_holdings df_curr' df_prev') = Some ch' → ch' !! etf = Some d' →
    changed d' ≡ₚ changed d ∧
    Sorted weight_diff_ge (changed d') ∧
    ((∀ r1 r2, r1 ∈ changed d → r2 ∈ changed d →
        (Changed.weight_diff r1 == Changed.weight_diff r2)%Q → r1 = r2) →
     changed d' = changed d).
Proof.
  intros Hch Hd.
  assert (∀ c p e x, compare_etf e c p = Some x → Sorted weight_diff_ge (changed x)) as Hsorted.
  { intros c p e x [_ ->]%compare_etf_Some. apply Sorted_sort_values. }
  destruct (compare_holdings_entry _ _ _ _ _ Hch Hd) as [_ Hetf].
  split; [by eapply Hsorted|].
  intros df_curr' df_prev' ch' d' Hc Hp Hcurr Hprev Hch' Hd'.
  destruct (compare_holdings_entry _ _ _ _ _ Hch' Hd') as [_ Hetf'].
  pose proof (changed_reordered etf _ _ _ _ d d' Hc Hp Hcurr Hprev Hetf Hetf') as Hperm.
  split_and!; [done|by eapply Hsorted|].
  intros Hties. apply (Sorted_unique_strong weight_diff_ge); [|by eapply Hsorted..|done].
  intros r1 r2 Hr1 Hr2 H12 H21. apply Hties; [by rewrite <- Hperm|done|].
  by apply Qle_antisym.
Qed.

Lemma changed_sorted_by_weight_diff_witness :
  let df_prev := Plain [A_1000; B_500] in
  let df_curr := Plain [A_1200; B_up] in
  let d := mkDelta [] [] [diff_row (B_up, B_500); diff_row (A_1200, A_1000)] in
  changes (compare_holdings df_curr df_prev) = Some {[DEFAULT_ETF := d]} ∧
  Sorted weight_diff_ge (changed d).
Proof.
  intros df_prev df_curr d.
  assert (changes (compare_holdings df_curr df_prev) = Some {[DEFAULT_ETF := d]}) as Hch
    by (vm_compute; reflexivity).
  split; [exact Hch|].
  refine (proj1 (changed_sorted_by_weight_diff df_curr df_prev _ DEFAULT_ETF d Hch _)).
  vm_compute; reflexivity.
Defined.

(** C3, as stated, fails: B and A both gain one point of weight; the
    changed rows come out as B, A, in the order of the current table, and a
    current table listing A first gives A, B. *)
Lemma changed_ties_not_by_stock_id :
  let df_prev := Plain [B_500; A_1000] in
  let df_curr := Plain [B_up; A_up] in
  let df_curr' := Plain [A_up; B_up] in
  ∃ d d', delta_of (compare_holdings df_curr df_prev) DEFAULT_ETF = Some d ∧
          delta_of (compare_holdings df_curr' df_prev) DEFAULT_ETF = Some d' ∧
          Changed.stock_id <$> changed d = ["B"; "A"] ∧
          Changed.stock_id <$> changed d' = ["A"; "B"] ∧
          ¬ Sorted spec_changed_order (changed d).
Proof.
  intros df_prev df_curr df_curr'. eexists _, _.
  split; [vm_compute; reflexivity|]. split; [vm_compute; reflexivity|].
  split; [reflexivity|]. split; [reflexivity|].
  intros Hs. apply Sorted_inv in Hs as [_ Hhd]. apply HdRel_inv in Hhd.
  destruct Hhd as [Hlt|[_ Hle]]; [by vm_compute in Hlt|by vm_compute in Hle].
Qed.

(** C4, as amended: a table that has the ETF column is left as it is; a
    table without it is given the column, holding '00981A' in every row,
    its rows otherwise unchanged. *)
Theorem compare_holdings_inputs (df_curr df_prev : DataFrame) :
  let o := compare_holdings df_curr df_prev in
  ("ETF" ∈ columns df_curr → df_curr_after o = df_curr) ∧
  ("ETF" ∈ columns df_prev → df_prev_after o = df_prev) ∧
  (∀ rows, df_curr = Plain rows → df_curr_after o = Tagged (pair DEFAULT_ETF <$> rows)) ∧
  (∀ rows, df_prev = Plain rows → df_prev_after o = Tagged (pair DEFAULT_ETF <$> rows)) ∧
  "ETF" ∈ columns (df_curr_after o) ∧ "ETF" ∈ columns (df_prev_after o) ∧
  (tagged_rows (df_curr_after o)).*2 = (tagged_rows df_curr).*2 ∧
  (tagged_rows (df_prev_after o)).*2 = (tagged_rows df_prev).*2.
Proof.
  simpl. split_and!.
  - intros H. unfold ensure_ETF. by rewrite bool_decide_eq_true_2.
  - intros H. unfold ensure_ETF. by rewrite bool_decide_eq_true_2.
  - by intros rows ->.
  - by intros rows ->.
  - destruct df_curr; apply (bool_decide_unpack _); vm_compute; exact I.
  - destruct df_prev; apply (bool_decide_unpack _); vm_compute; exact I.
  - by rewrite tagged_rows_ensure_ETF.
  - by rewrite tagged_rows_ensure_ETF.
Qed.

Lemma compare_holdings_inputs_witness :
  let df := Tagged [("00981A", A_1000)] in
  "ETF" ∈ columns df ∧ df_curr_after (compare_holdings df df) = df.
Proof.
  intros df.
  assert ("ETF" ∈ columns df) as H by (apply (bool_decide_unpack _); vm_compute; exact I).
  split; [exact H|]. exact (proj1 (compare_holdings_inputs df df) H).
Defined.

(** C4, as stated, fails: both tables as read from the snapshot files lack
    the ETF column and come back with it. *)
Lemma compare_holdings_adds_ETF_column :
  let df_prev := Plain [A_1000] in
  let df_curr := Plain [A_1200] in
  let o := compare_holdings df_curr df_prev in
  df_curr_after o ≠ df_curr ∧ df_prev_after o ≠ df_prev ∧
  columns (df_curr_after o) ≠ columns df_curr.
Proof. by split_and!. Qed.

(** C5, as amended: no uniqueness is asserted and no integrity error is
    raised. When no stock id that both tables of a fund have is repeated,
    the diff returns, and a stock id repeated among the entered (or
    exited) rows has every one of its rows emitted in Entered (or
    Exited). *)
Theorem repeated_stock_id_not_rejected (df_curr df_prev : DataFrame) :
  Forall (λ etf, common_once etf (tagged_rows df_curr) (tagged_rows df_prev))
         (tagged_rows df_curr).*1 →
  ∃ ch, changes (compare_holdings df_curr df_prev) = Some ch ∧
    ∀ etf d, ch !! etf = Some d →
      let curr_etf := set_index etf (tagged_rows df_curr) in
      let prev_etf := set_index etf (tagged_rows df_prev) in
      (∀ r, r ∈ new d ↔ r ∈ curr_etf ∧ stock_id r ∉ index prev_etf) ∧
      (∀ r, r ∈ exit d ↔ r ∈ prev_etf ∧ stock_id r ∉ index curr_etf) ∧
      (∀ l, l ∈ index curr_etf → l ∉ index prev_etf →
         rows_of l (new d) = rows_of l curr_etf) ∧
      (∀ l, l ∈ index prev_etf → l ∉ index curr_etf →
         rows_of l (exit d) = rows_of l prev_etf).
Proof.
  intros Honce. destruct (compare_holdings_returns _ _ Honce) as [ch Hch].
  exists ch. split; [done|]. intros etf d Hd curr_etf prev_etf.
  destruct (compare_holdings_entry _ _ _ _ _ Hch Hd) as [_ [_ ->]%compare_etf_Some].
  simpl. fold curr_etf prev_etf. split_and!.
  - intros r. rewrite elem_of_loc, elem_of_difference_index, elem_of_index.
    split; [tauto|]. intros [Hr Hn]. eauto.
  - intros r. rewrite elem_of_loc, elem_of_difference_index, elem_of_index.
    split; [tauto|]. intros [Hr Hn]. eauto.
  - intros l Hl Hn. apply rows_of_loc; [apply NoDup_difference|].
    by apply elem_of_difference_index.
  - intros l Hl Hn. apply rows_of_loc; [apply NoDup_difference|].
    by apply elem_of_difference_index.
Qed.

Lemma repeated_stock_id_not_rejected_witness :
  ∃ ch, changes (compare_holdings (Plain [A_1000; A_lot2]) (Plain [B_500])) = Some ch.
Proof.
  destruct (repeated_stock_id_not_rejected (Plain [A_1000; A_lot2]) (Plain [B_500]))
    as (ch & Hch & _); [|by exists ch].
  apply (bool_decide_unpack _). vm_compute. exact I.
Defined.

(** C5, as stated, fails: the current table lists A twice; the call returns
    and both rows are reported as entered. *)
Lemma repeated_stock_id_is_emitted :
  let df_curr := Plain [A_1000; A_lot2] in
  let df_prev := Plain [B_500] in
  ¬ NoDup (index (set_index DEFAULT_ETF (tagged_rows df_curr))) ∧
  delta_of (compare_holdings df_curr df_prev) DEFAULT_ETF =
    Some {| new := [A_1000; A_lot2]; exit := [B_500]; changed := [] |}.
Proof.
  split; [|vm_compute; reflexivity].
  apply (bool_decide_unpack _). vm_compute. exact I.
Qed.

Lemma elem_of_keys (x : string) (frame : list Holding) : x ∈ keys frame ↔ x ∈ index frame.
Proof. unfold keys. apply elem_of_list_to_set. Qed.

(** C9: for every fund of the result the Entered and Exited key sets are
    disjoint, and Entered, the common keys and the keys only in the
    previous table together are exactly the keys of the two tables. *)
Theorem delta_key_sets (df_curr df_prev : DataFrame) (ch : gmap string Delta)
    (etf : string) (d : Delta) :
  changes (compare_holdings df_curr df_prev) = Some ch → ch !! etf = Some d →
  let curr_etf := set_index etf (tagged_rows df_curr) in
  let prev_etf := set_index etf (tagged_rows df_prev) in
  let Common : gset string :=
    list_to_set (intersection (index curr_etf) (index prev_etf)) in
  keys (new d) ∩ keys (exit d) = ∅ ∧
  keys (new d) ∪ Common ∪ (keys prev_etf ∖ keys curr_etf) = keys curr_etf ∪ keys prev_etf ∧
  keys (new d) = keys curr_etf ∖ keys prev_etf ∧
  keys (exit d) = keys prev_etf ∖ keys curr_etf ∧
  Common = keys curr_etf ∩ keys prev_etf ∧
  list_to_set (Changed.stock_id <$> changed d) ⊆ Common.
Proof.
  intros Hch Hd curr_etf prev_etf Common.
  destruct (compare_holdings_entry _ _ _ _ _ Hch Hd) as [_ [E ->]%compare_etf_Some].
  simpl. fold curr_etf prev_etf in E |- *.
  assert (keys (loc (difference (index curr_etf) (index prev_etf)) curr_etf)
          = keys curr_etf ∖ keys prev_etf) as Hnew.
  { apply set_eq. intros x.
    rewrite elem_of_difference, !elem_of_keys, elem_of_index_loc, elem_of_difference_index.
    tauto. }
  assert (keys (loc (difference (index prev_etf) (index curr_etf)) prev_etf)
          = keys prev_etf ∖ keys curr_etf) as Hexit.
  { apply set_eq. intros x.
    rewrite elem_of_difference, !elem_of_keys, elem_of_index_loc, elem_of_difference_index.
    tauto. }
  assert (Common = keys curr_etf ∩ keys prev_etf) as Hcommon.
  { apply set_eq. intros x. unfold Common.
    rewrite elem_of_list_to_set, elem_of_intersection, !elem_of_keys.
    apply elem_of_intersection_index. }
  rewrite Hnew, Hexit, Hcommon. split_and!; try done.
  - apply set_eq. intros x.
    rewrite elem_of_intersection, !elem_of_difference, elem_of_empty. tauto.
  - apply set_eq. intros x. rewrite !elem_of_union, !elem_of_difference, elem_of_intersection.
    destruct (decide (x ∈ keys curr_etf)), (decide (x ∈ keys prev_etf)); tauto.
  - intros x. rewrite elem_of_list_to_set, elem_of_intersection, !elem_of_keys.
    rewrite sort_values_Permutation.
    intros (r & -> & [_ Hr]%list_elem_of_filter)%list_elem_of_fmap.
    apply list_elem_of_fmap in Hr as ([c p] & -> & Hz). simpl.
    pose proof (zip_same_label _ _ _ _ E Hz) as Eid.
    split.
    + apply elem_of_zip_l, elem_of_loc in Hz as [_ Hc]. apply elem_of_index. eauto.
    + apply elem_of_zip_r, elem_of_loc in Hz as [_ Hp]. apply elem_of_index. eauto.
Qed.

Lemma delta_key_sets_witness :
  let df_prev := Plain [A_1000; B_500] in
  let df_curr := Plain [A_1200] in
  let d := mkDelta [] [B_500] [diff_row (A_1200, A_1000)] in
  changes (compare_holdings df_curr df_prev) = Some {[DEFAULT_ETF := d]} ∧
  keys (new d) ∩ keys (exit d) = ∅.
Proof.
  intros df_prev df_curr d.
  assert (changes (compare_holdings df_curr df_prev) = Some {[DEFAULT_ETF := d]}) as Hch
    by (vm_compute; reflexivity).
  split; [exact Hch|].
  refine (proj1 (delta_key_sets df_curr df_prev _ DEFAULT_ETF d Hch _)).
  vm_compute; reflexivity.
Defined.

(** C10, as amended: with the stock ids of a fund distinct in each table,
    Exited is sorted ascending by stock_id, and so is Entered when the
    previous table has a row of the fund; both are then unchanged by
    reordering the rows of either table. For a fund without rows in the
    previous table Entered is the fund's current rows in table order. *)
Theorem entered_exited_order (df_curr df_prev : DataFrame) (ch : gmap string Delta)
    (etf : string) (d : Delta) :
  changes (compare_holdings df_curr df_prev) = Some ch → ch !! etf = Some d →
  NoDup (index (set_index etf (tagged_rows df_curr))) →
  NoDup (index (set_index etf (tagged_rows df_prev))) →
  let curr_etf := set_index etf (tagged_rows df_curr) in
  let prev_etf := set_index etf (tagged_rows df_prev) in
  Sorted String.le (index (exit d)) ∧
  (prev_etf ≠ [] → Sorted String.le (index (new d))) ∧
  (prev_etf = [] → new d = curr_etf) ∧
  ∀ (df_curr' df_prev' : DataFrame) (ch' : gmap string Delta) (d' : Delta),
    tagged_rows df_curr ≡ₚ tagged_rows df_curr' →
    tagged_rows df_prev ≡ₚ tagged_rows df_prev' →
    changes (compare_holdings df_curr' df_prev') = Some ch' → ch' !! etf = Some d' →
    exit d' = exit d ∧ (prev_etf ≠ [] → new d' = new d).
Proof.
  intros Hch Hd Hcurr Hprev curr_etf prev_etf.
  destruct (compare_holdings_entry _ _ _ _ _ Hch Hd) as [Hin Hetf].
  assert (curr_etf ≠ []) as Hne by (by intros E%set_index_nil).
  assert (index curr_etf ≠ []) as Hne' by (unfold index; by intros ?%fmap_nil_inv).
  pose proof Hetf as [_ Ed]%compare_etf_Some. fold curr_etf prev_etf in Ed.
  split_and!.
  - rewrite Ed. simpl. rewrite index_loc_once; [by apply Sorted_difference|].
    intros l [Hl _]%elem_of_difference_index. by apply rows_of_NoDup.
  - intros Hp. rewrite Ed. simpl. rewrite index_loc_once.
    + apply Sorted_difference. unfold index. by intros ?%fmap_nil_inv.
    + intros l [Hl _]%elem_of_difference_index. by apply rows_of_NoDup.
  - intros E. rewrite Ed. simpl. rewrite E. simpl.
    rewrite difference_nil_r by done. by apply loc_index_id.
  - intros df_curr' df_prev' ch' d' Hc Hp Hch' Hd'.
    destruct (compare_holdings_entry _ _ _ _ _ Hch' Hd') as [_ Hetf'].
    split.
    + eapply (exit_reordered etf); [exact Hc|exact Hp|exact Hprev|exact Hetf|exact Hetf'|exact Hne].
    + intros Hpne.
      eapply (new_reordered etf); [exact Hc|exact Hp|exact Hcurr|exact Hetf|exact Hetf'|exact Hpne].
Qed.

Lemma entered_exited_order_witness :
  let df_prev := Plain [B_500; A_1000] in
  let df_curr := Plain [A_lot2] in
  let d := mkDelta [] [B_500] [diff_row (A_lot2, A_1000)] in
  changes (compare_holdings df_curr df_prev) = Some {[DEFAULT_ETF := d]} ∧
  Sorted String.le (index (exit d)).
Proof.
  intros df_prev df_curr d.
  assert (changes (compare_holdings df_curr df_prev) = Some {[DEFAULT_ETF := d]}) as Hch
    by (vm_compute; reflexivity).
  split; [exact Hch|].
  refine (proj1 (entered_exited_order df_curr df_prev _ DEFAULT_ETF d Hch _ _ _)).
  - vm_compute; reflexivity.
  - apply (bool_decide_unpack _); vm_compute; exact I.
  - apply (bool_decide_unpack _); vm_compute; exact I.
Defined.

(** C10, as stated, fails for a newly monitored fund: the previous table
    has no row of the fund, and the entered rows keep the order of the
    current table, here B before A, and follow it when it is reordered. *)
Lemma entered_not_sorted_for_new_fund :
  let df_prev := Tagged [("00982A", A_lot2)] in
  let df_curr := Tagged [("00981A", B_500); ("00981A", A_1000)] in
  let df_curr' := Tagged [("00981A", A_1000); ("00981A", B_500)] in
  NoDup (index (set_index "00981A" (tagged_rows df_curr))) ∧
  NoDup (index (set_index "00981A" (tagged_rows df_prev))) ∧
  ∃ d d', delta_of (compare_holdings df_curr df_prev) "00981A" = Some d ∧
          delta_of (compare_holdings df_curr' df_prev) "00981A" = Some d' ∧
          index (new d) = ["B"; "A"] ∧
          ¬ Sorted String.le (index (new d)) ∧
          new d' ≠ new d.
Proof.
  intros df_prev df_curr df_curr'.
  split; [apply (bool_decide_unpack _); vm_compute; exact I|].
  split; [apply (bool_decide_unpack _); vm_compute; exact I|].
  eexists _, _. split; [vm_compute; reflexivity|]. split; [vm_compute; reflexivity|].
  split_and!; [done| |done].
  intros Hs. apply Sorted_inv in Hs as [_ Hhd]. apply HdRel_inv in Hhd.
  by vm_compute in Hhd.
Qed.

(** ** The scraper *)

Section scraper_facts.
Variables (str_to_float : string → option Q) (http_get : string → Response).

Lemma parse_detail_malformed (detail : Detail) :
  malformed str_to_float detail → parse_detail str_to_float detail = None.
Proof.
  unfold parse_detail, malformed.
  intros H.
  destruct (stripped (default _ (DetailCode detail))); [|reflexivity]. csimpl.
  destruct (stripped (default _ (DetailName detail))); [|reflexivity].
  destruct H as [H|H]; csimpl.
  - by rewrite H.
  - destruct (float str_to_float (default _ (Share detail))); [|reflexivity].
    csimpl. by rewrite H.
Qed.

(** One detail that raises ends the whole loop. *)
Lemma parse_holdings_raises (data : list Asset) (item : Asset)
    (details : list Detail) (detail : Detail) :
  item ∈ data → stock_details item = Some details → detail ∈ details →
  parse_detail str_to_float detail = None → parse_holdings str_to_float data = None.
Proof.
  intros Hitem Hdetails Hdetail Hnone.
  induction data as [|item' data IH]; [by apply elem_of_nil in Hitem|].
  simpl. apply elem_of_cons in Hitem as [<-|Hitem].
  - rewrite Hdetails.
    assert (mapM (parse_detail str_to_float) details = None) as ->; [|done].
    apply mapM_None, Exists_exists. eauto.
  - destruct (stock_details item'); [|by apply IH].
    destruct (mapM _ _); simpl; [|done]. by rewrite IH.
Qed.

Lemma stock_rows_cons (item : Asset) (data : list Asset) :
  stock_rows (item :: data) = (default [] (stock_details item) ++ stock_rows data)%list.
Proof. done. Qed.

(** The loop never drops a detail: it returns a row for each or none. *)
Lemma parse_holdings_length (data : list Asset) (holdings : list Holding) :
  parse_holdings str_to_float data = Some holdings →
  length holdings = length (stock_rows data).
Proof.
  revert holdings. induction data as [|item data IH]; intros holdings H.
  - by injection H as <-.
  - rewrite stock_rows_cons, length_app. simpl in H.
    destruct (stock_details item) as [details|]; simpl; [|by apply IH].
    destruct (mapM _ _) as [rows|] eqn:Hrows; simpl in H; [|done].
    destruct (parse_holdings _ data) as [rest|]; simpl in H; [|done].
    injection H as <-. rewrite length_app, (IH rest) by done.
    by rewrite (length_mapM _ _ _ Hrows).
Qed.

Lemma fetch_holdings_Some (etf_code : string) (rows : list Holding) :
  (fetch_holdings str_to_float http_get etf_code).1 = Some rows →
  rows ≠ [] ∧
  ∃ url data, url_map etf_code = Some url ∧ http_get url = Content data ∧
              parse_holdings str_to_float data = Some rows.
Proof.
  unfold fetch_holdings. destruct (url_map etf_code) as [url|]; [|done].
  destruct (http_get url) as [| | |data] eqn:Hget; try done.
  destruct (parse_holdings _ data) as [[|r holdings]|] eqn:Hparse; try done.
  intros [= <-]. split; [done|]. by exists url, data.
Qed.

Lemma fetch_holdings_raises (etf_code url : string) (data : list Asset) :
  url_map etf_code = Some url → http_get url = Content data →
  parse_holdings str_to_float data = None →
  fetch_holdings str_to_float http_get etf_code =
    (None, [Fetching url; ErrorParsing etf_code; SavedDebugHtml etf_code]).
Proof.
  intros Hurl Hget Hparse. unfold fetch_holdings. by rewrite Hurl, Hget, Hparse.
Qed.

Lemma monitor_etfs_nothing_fetched (pd_read_csv : DataFrame → option DataFrame)
    (timestamp : string) (dir : gmap string File) :
  (fetch_holdings str_to_float http_get "00981A").1 = None →
  monitor_etfs str_to_float http_get pd_read_csv timestamp dir =
    {| returned := None; etf_data := dir;
       printed := Processing "00981A" ::
                  (fetch_holdings str_to_float http_get "00981A").2 ++
                  [FailedToFetch "00981A"; NoDataFetched] |}.
Proof.
  unfold monitor_etfs, target_etfs, fetch_all.
  destruct (fetch_holdings str_to_float http_get "00981A") as [df out]. simpl.
  intros ->. simpl.
  by rewrite <- app_assoc.
Qed.
End scraper_facts.

(** C6, as amended: a malformed numeric field is not rejected row by row
    and there is no strictness setting. A detail of a stock asset whose
    shares or weight is not a number makes [fetch_holdings] return None for
    the whole fund, after printing the parse error and saving the page; a
    table that is returned has one row for every detail, none skipped; and
    when the fetch of the one monitored fund returns None the run writes no
    snapshot and no report. *)
Theorem malformed_row_fails_fetch (str_to_float : string → option Q)
    (http_get : string → Response) :
  (∀ etf_code url data item details detail,
     url_map etf_code = Some url → http_get url = Content data →
     item ∈ data → stock_details item = Some details → detail ∈ details →
     malformed str_to_float detail →
     fetch_holdings str_to_float http_get etf_code =
       (None, [Fetching url; ErrorParsing etf_code; SavedDebugHtml etf_code])) ∧
  (∀ etf_code rows,
     (fetch_holdings str_to_float http_get etf_code).1 = Some rows →
     ∃ url data, url_map etf_code = Some url ∧ http_get url = Content data ∧
       length rows = length (stock_rows data) ∧
       Forall (λ detail, ¬ malformed str_to_float detail) (stock_rows data)) ∧
  (∀ pd_read_csv timestamp dir,
     (fetch_holdings str_to_float http_get "00981A").1 = None →
     let r := monitor_etfs str_to_float http_get pd_read_csv timestamp dir in
     returned r = None ∧ etf_data r = dir ∧
     printed r = Processing "00981A" ::
                 (fetch_holdings str_to_float http_get "00981A").2 ++
                 [FailedToFetch "00981A"; NoDataFetched]).
Proof.
  split_and!.
  - intros etf_code url data item details detail Hurl Hget Hitem Hdetails Hdetail Hbad.
    apply (fetch_holdings_raises _ _ _ _ data); [done..|].
    eapply parse_holdings_raises; [done..|]. by apply parse_detail_malformed.
  - intros etf_code rows Hrows.
    apply fetch_holdings_Some in Hrows as (_ & url & data & Hurl & Hget & Hparse).
    exists url, data. split_and!; [done..| |].
    + by eapply parse_holdings_length.
    + apply Forall_forall. intros detail Hdetail Hbad.
      apply list_elem_of_bind in Hdetail as (item & Hdetail & Hitem).
      destruct (stock_details item) as [details|] eqn:Hdetails;
        [|by apply elem_of_nil in Hdetail].
      rewrite (parse_holdings_raises str_to_float data item details detail) in Hparse;
        [done|done|done|done|]. by apply parse_detail_malformed.
  - intros pd_read_csv timestamp dir Hnone r. unfold r.
    by rewrite monitor_etfs_nothing_fetched.
Qed.

Lemma malformed_row_fails_fetch_witness :
  let http_get : string → Response :=
    λ _, Content [mkAsset (Some (JStr "ST")) (Some [tsmc; mediatek_bad])] in
  malformed plain_decimal mediatek_bad ∧
  (fetch_holdings plain_decimal http_get "00981A").1 = None.
Proof.
  intros http_get.
  assert (malformed plain_decimal mediatek_bad) as Hbad by (left; reflexivity).
  split; [exact Hbad|].
  rewrite (proj1 (malformed_row_fails_fetch plain_decimal http_get) "00981A" _ _
             (mkAsset (Some (JStr "ST")) (Some [tsmc; mediatek_bad]))
             [tsmc; mediatek_bad] mediatek_bad eq_refl eq_refl).
  - reflexivity.
  - left.
  - reflexivity.
  - right. left.
  - exact Hbad.
Defined.

(** C6, as stated, fails: the payload holds a well-formed detail and one
    whose share count is "N/A"; the fetch returns None, the well-formed row
    is lost with it, and the run ends without a snapshot or a report. *)
Lemma one_bad_row_blocks_the_fund :
  let http_get : string → Response :=
    λ _, Content [mkAsset (Some (JStr "ST")) (Some [tsmc; mediatek_bad])] in
  parse_detail plain_decimal tsmc = Some tsmc_row ∧
  malformed plain_decimal mediatek_bad ∧
  (¬ ∃ rows, (fetch_holdings plain_decimal http_get "00981A").1 = Some rows ∧
             tsmc_row ∈ rows) ∧
  monitor_etfs plain_decimal http_get same_table "20250102" yesterday =
    {| returned := None; etf_data := yesterday;
       printed := [Processing "00981A";
                   Fetching "https://www.ezmoney.com.tw/ETF/Fund/Info?fundCode=49YTW";
                   ErrorParsing "00981A"; SavedDebugHtml "00981A";
                   FailedToFetch "00981A"; NoDataFetched] |}.
Proof.
  intros http_get. split_and!.
  - reflexivity.
  - left. reflexivity.
  - intros (rows & Hrows & _). by vm_compute in Hrows.
  - vm_compute. reflexivity.
Qed.

(** C8, as amended: [fetch_holdings] returns None both when the fetch
    fails and when the payload is fetched but holds no stock holdings (the
    printed message differs, the returned value does not); a table that is
    returned is never empty. *)
Theorem fetch_holdings_empty_is_None (str_to_float : string → option Q)
    (http_get : string → Response) (etf_code : string) :
  (∀ rows, (fetch_holdings str_to_float http_get etf_code).1 = Some rows → rows ≠ []) ∧
  (∀ url data,
     url_map etf_code = Some url → http_get url = Content data →
     parse_holdings str_to_float data = Some [] →
     fetch_holdings str_to_float http_get etf_code =
       (None, [Fetching url; NoStockHoldings etf_code])) ∧
  (∀ url,
     url_map etf_code = Some url → http_get url = RequestException →
     fetch_holdings str_to_float http_get etf_code =
       (None, [Fetching url; ErrorFetching etf_code])).
Proof.
  split_and!.
  - intros rows Hrows. by apply fetch_holdings_Some in Hrows as [? _].
  - intros url data Hurl Hget Hparse. unfold fetch_holdings.
    by rewrite Hurl, Hget, Hparse.
  - intros url Hurl Hget. unfold fetch_holdings. by rewrite Hurl, Hget.
Qed.

Lemma fetch_holdings_empty_is_None_witness :
  (fetch_holdings plain_decimal (λ _, Content []) "00981A").1 = None ∧
  (fetch_holdings plain_decimal (λ _, RequestException) "00981A").1 = None.
Proof.
  split.
  - by rewrite (proj1 (proj2 (fetch_holdings_empty_is_None plain_decimal
                  (λ _, Content []) "00981A")) _ [] eq_refl eq_refl eq_refl).
  - by rewrite (proj2 (proj2 (fetch_holdings_empty_is_None plain_decimal
                  (λ _, RequestException) "00981A")) _ eq_refl eq_refl).
Defined.

(** C8, as stated, fails: a payload that is fetched and holds no stock
    asset gives the value a failed request gives. *)
Lemma fetched_but_empty_is_a_failure :
  (fetch_holdings plain_decimal (λ _, Content []) "00981A").1 =
  (fetch_holdings plain_decimal (λ _, RequestException) "00981A").1 ∧
  (fetch_holdings plain_decimal (λ _, Content []) "00981A").1 = None.
Proof. by split. Qed.

(** ** Snapshot names and dates *)

Lemma string_compare_refl (s : string) : String.compare s s = Eq.
Proof.
  induction s as [|c s IH]; [done|]. simpl.
  unfold Ascii.compare. by rewrite N.compare_refl.
Qed.

Lemma string_app_cons (c : ascii) (p a : string) :
  String c p ++ a = String c (p ++ a).
Proof. done. Qed.

Lemma string_compare_cons (c : ascii) (a b : string) :
  String.compare (String c a) (String c b) = String.compare a b.
Proof. simpl. unfold Ascii.compare. by rewrite N.compare_refl. Qed.

Lemma string_compare_app_l (p a b : string) :
  String.compare (p ++ a) (p ++ b) = String.compare a b.
Proof.
  induction p as [|c p IH]; [done|].
  by rewrite !string_app_cons, string_compare_cons.
Qed.

Lemma string_compare_app_r (a b q : string) :
  String.length a = String.length b →
  String.compare (a ++ q) (b ++ q) = String.compare a b.
Proof.
  revert b. induction a as [|c a IH]; intros [|d b] Hlen; try done.
  - apply string_compare_refl.
  - rewrite !string_app_cons. simpl. injection Hlen as Hlen. by rewrite IH.
Qed.

Lemma snapshot_name_compare (d1 d2 : string) :
  String.length d1 = String.length d2 →
  String.compare (snapshot_name d1) (snapshot_name d2) = String.compare d1 d2.
Proof.
  intros Hlen. unfold snapshot_name.
  by rewrite string_compare_app_l, string_compare_app_r.
Qed.

Lemma digit_Some (c : ascii) :
  is_Some (digit c) → (48 ≤ Z.of_N (N_of_ascii c) ≤ 57)%Z.
Proof.
  unfold digit. destruct (_ && _) eqn:E; [|by intros [? ?]]. intros _.
  apply andb_true_iff in E as [?%Z.leb_le ?%Z.leb_le]. done.
Qed.

Lemma stamp_value_bound (s : string) :
  all_digits s → (0 ≤ stamp_value s < 10 ^ Z.of_nat (String.length s))%Z.
Proof.
  induction s as [|c s IH]; [done|]. cbn [all_digits stamp_value String.length].
  intros [Hc%bool_decide_unpack%digit_Some Hs%IH]%andb_prop_elim.
  rewrite Nat2Z.inj_succ, Z.pow_succ_r by lia. nia.
Qed.

(** Stamps of the same width compare as the numbers they spell. *)
Lemma stamp_compare (s1 s2 : string) :
  String.length s1 = String.length s2 → all_digits s1 → all_digits s2 →
  String.compare s1 s2 = (stamp_value s1 ?= stamp_value s2)%Z.
Proof.
  revert s2. induction s1 as [|c s1 IH]; intros [|d s2] Hlen H1 H2; try done.
  injection Hlen as Hlen.
  cbn [all_digits] in H1, H2.
  apply andb_prop_elim in H1 as [Hc%bool_decide_unpack%digit_Some H1].
  apply andb_prop_elim in H2 as [Hd%bool_decide_unpack%digit_Some H2].
  pose proof (stamp_value_bound s1 H1) as B1.
  pose proof (stamp_value_bound s2 H2) as B2.
  cbn [String.compare stamp_value]. rewrite <- Hlen in *.
  unfold Ascii.compare. rewrite <- N2Z.inj_compare.
  destruct (Z.compare_spec (Z.of_N (N_of_ascii c)) (Z.of_N (N_of_ascii d))) as [E|E|E].
  - rewrite E, (IH s2) by done. symmetry. apply Z.add_compare_mono_l.
  - symmetry. apply Z.compare_lt_iff. nia.
  - symmetry. apply Z.compare_gt_iff. nia.
Qed.

(** ** The snapshot files of a directory *)

Lemma elem_of_snapshot_files (f : string) (dir : gmap string File) :
  f ∈ snapshot_files dir ↔ is_snapshot f = true ∧ is_Some (dir !! f).
Proof.
  unfold snapshot_files.
  rewrite merge_sort_Permutation, list_elem_of_filter, elem_of_elements, elem_of_dom.
  done.
Qed.

Lemma NoDup_snapshot_files (dir : gmap string File) : NoDup (snapshot_files dir).
Proof.
  unfold snapshot_files. rewrite merge_sort_Permutation.
  apply NoDup_filter, NoDup_elements.
Qed.

Lemma Sorted_snapshot_files (dir : gmap string File) :
  StronglySorted String.le (snapshot_files dir).
Proof. apply (StronglySorted_merge_sort String.le). Qed.

Lemma last_two {A} (l : list A) :
  (2 ≤ length l)%nat → ∃ l0 a b, l = (l0 ++ [a; b])%list.
Proof.
  induction l as [|x [|y [|z l]] IH]; simpl; try lia; intros _.
  - by exists [], x, y.
  - destruct IH as (l0 & a & b & E); [simpl; lia|].
    exists (x :: l0), a, b. by rewrite E.
Qed.

(** The last two entries of the sorted list are its two greatest. *)
Lemma sorted_last_two (files : list string) :
  StronglySorted String.le files → NoDup files → (2 ≤ length files)%nat →
  ∃ prev_file curr_file,
    files !! (length files - 2) = Some prev_file ∧
    files !! (length files - 1) = Some curr_file ∧
    String.le prev_file curr_file ∧ prev_file ≠ curr_file ∧
    (∀ f, f ∈ files → String.le f curr_file) ∧
    (∀ f, f ∈ files → f ≠ curr_file → String.le f prev_file).
Proof.
  intros Hsorted Hnd Hlen. destruct (last_two files Hlen) as (l0 & a & b & ->).
  exists a, b. rewrite length_app. simpl.
  apply StronglySorted_app in Hsorted as (Hcross & _ & Hab).
  apply StronglySorted_cons in Hab as [Hab _]. rewrite Forall_singleton in Hab.
  apply NoDup_app in Hnd as (_ & _ & Hnd). apply NoDup_cons in Hnd as [Hne _].
  split_and!.
  - rewrite lookup_app_r by lia. by replace (length l0 + 2 - 2 - length l0) with 0 by lia.
  - rewrite lookup_app_r by lia. by replace (length l0 + 2 - 1 - length l0) with 1 by lia.
  - done.
  - intros ->. apply Hne. left.
  - intros f [Hf|Hf]%elem_of_app.
    + apply Hcross; [done|]. right. left.
    + apply elem_of_cons in Hf as [->|Hf]; [done|].
      apply list_elem_of_singleton in Hf as ->. done.
  - intros f [Hf|Hf]%elem_of_app Hfb.
    + apply Hcross; [done|]. left.
    + apply elem_of_cons in Hf as [->|Hf]; [done|].
      by apply list_elem_of_singleton in Hf.
Qed.

(** ** The comparison block *)

Section comparison_facts.
Variable pd_read_csv : DataFrame → option DataFrame.
Variable timestamp : string.

Lemma comparison_not_enough (final_df : DataFrame) (dir : gmap string File) :
  length (snapshot_files dir) < 2 →
  comparison pd_read_csv timestamp final_df dir =
    {| returned := Some final_df; etf_data := dir; printed := [NotEnoughHistory] |}.
Proof.
  intros Hlen. unfold comparison. rewrite bool_decide_eq_false_2; [done|lia].
Qed.

Lemma comparison_latest_two (final_df : DataFrame) (dir : gmap string File)
    (prev_file curr_file : string) :
  let files := snapshot_files dir in
  files !! (length files - 2) = Some prev_file →
  files !! (length files - 1) = Some curr_file →
  (2 ≤ length files)%nat →
  let r := comparison pd_read_csv timestamp final_df dir in
  ∃ rest, printed r = Comparing curr_file prev_file :: rest ∧
          (NotEnoughHistory ∉ rest) ∧
          (etf_data r = dir ∨
           ∃ diff_data, etf_data r = <[report_name timestamp := Report diff_data]> dir).
Proof.
  intros files Hprev Hcurr Hlen r. unfold r, comparison. fold files.
  rewrite bool_decide_eq_true_2, Hprev, Hcurr by done. cbn [default from_option id].
  assert (NotEnoughHistory ∉ [ComparisonFailed]) as Hfailed.
  { intros Hin. by apply list_elem_of_singleton in Hin. }
  destruct (read_csv pd_read_csv dir curr_file) as [df_curr|].
  - destruct (read_csv pd_read_csv dir prev_file) as [df_prev|].
    + destruct (changes (compare_holdings df_curr df_prev)) as [diff_data|];
        cbn [generate_html_report generate_index_page printed etf_data].
      * eexists. split; [done|]. split; [|eauto].
        intros Hin. apply elem_of_cons in Hin as [?|Hin]; [done|].
        by apply list_elem_of_singleton in Hin.
      * eexists. split; [done|]. split; [done|]. by left.
    + eexists. split; [done|]. split; [done|]. by left.
  - eexists. split; [done|]. split; [done|]. by left.
Qed.

Lemma report_name_ne_snapshot_name (d1 d2 : string) :
  report_name d1 ≠ snapshot_name d2.
Proof. unfold report_name, snapshot_name. rewrite !string_app_cons. done. Qed.
End comparison_facts.

(** C7: after the snapshot of the day is written, fewer than two snapshot
    files mean that nothing is compared and no report is written, the run
    printing that there is not enough history; with two or more, the files
    compared are the last two of the lexicographically sorted list, the
    previous one before the current one, which for date stamps of the same
    width is the order of the dates. The snapshot of the day is in the
    directory in either case. *)
Theorem latest_two_or_not_enough_history (str_to_float : string → option Q)
    (http_get : string → Response) (pd_read_csv : DataFrame → option DataFrame)
    (timestamp : string) (dir : gmap string File) :
  let fetched := fetch_all str_to_float http_get target_etfs in
  fetched.1 ≠ [] →
  let r := monitor_etfs str_to_float http_get pd_read_csv timestamp dir in
  let final_df := Plain (mjoin fetched.1) in
  let filename := snapshot_name timestamp in
  let written := <[filename := Snapshot final_df]> dir in
  let files := snapshot_files written in
  etf_data r !! filename = Some (Snapshot final_df) ∧
  Sorted String.le files ∧
  (∀ f, f ∈ files ↔ is_snapshot f = true ∧ is_Some (written !! f)) ∧
  (length files < 2 →
     printed r = (fetched.2 ++ [Saved filename; NotEnoughHistory])%list ∧
     etf_data r = written ∧ returned r = Some final_df) ∧
  ((2 ≤ length files)%nat →
     ∃ prev_file curr_file rest,
       files !! (length files - 2) = Some prev_file ∧
       files !! (length files - 1) = Some curr_file ∧
       printed r =
         (fetched.2 ++ Saved filename :: Comparing curr_file prev_file :: rest)%list ∧
       (NotEnoughHistory ∉ rest) ∧
       String.le prev_file curr_file ∧ prev_file ≠ curr_file ∧
       (∀ f, f ∈ files → String.le f curr_file) ∧
       (∀ f, f ∈ files → f ≠ curr_file → String.le f prev_file) ∧
       (∀ d1 d2, prev_file = snapshot_name d1 → curr_file = snapshot_name d2 →
          String.length d1 = String.length d2 → all_digits d1 → all_digits d2 →
          (stamp_value d1 < stamp_value d2)%Z)).
Proof.
  intros fetched Hfetched r final_df filename written files.
  assert (r = {| returned := returned (comparison pd_read_csv timestamp final_df written);
                 etf_data := etf_data (comparison pd_read_csv timestamp final_df written);
                 printed := (fetched.2 ++ Saved filename ::
                             printed (comparison pd_read_csv timestamp final_df written))%list
              |}) as Hr.
  { unfold r, monitor_etfs, final_df, written, filename. fold fetched.
    destruct fetched as [all_data out]. simpl in *.
    by rewrite bool_decide_eq_true_2. }
  destruct (decide (length files < 2)) as [Hlen|Hlen].
  - pose proof (comparison_not_enough pd_read_csv timestamp final_df written Hlen) as Hc.
    rewrite Hc in Hr. rewrite Hr. simpl. split_and!.
    + apply lookup_insert_eq.
    + apply Sorted_merge_sort, _.
    + intros f. apply elem_of_snapshot_files.
    + done.
    + intros ?. lia.
  - assert (2 ≤ length files)%nat as Hlen' by lia.
    destruct (sorted_last_two files) as (prev & curr & Hp & Hc & Hle & Hne & Hmax & Hmax');
      [apply Sorted_snapshot_files | apply NoDup_snapshot_files | done |].
    destruct (comparison_latest_two pd_read_csv timestamp final_df written prev curr Hp Hc Hlen')
      as (rest & Hprinted & Hrest & Hdir).
    rewrite Hr. simpl. split_and!.
    + destruct Hdir as [->|[diff_data ->]]; [apply lookup_insert_eq|].
      rewrite lookup_insert_ne by apply report_name_ne_snapshot_name.
      apply lookup_insert_eq.
    + apply Sorted_merge_sort, _.
    + intros f. apply elem_of_snapshot_files.
    + intros ?. lia.
    + intros _. exists prev, curr, rest. rewrite Hprinted. split_and!; try done.
      intros d1 d2 -> -> Hlen12 Hd1 Hd2.
      unfold Z.lt. rewrite <- stamp_compare by done.
      rewrite <- snapshot_name_compare by done.
      unfold String.le, String.leb in Hle.
      destruct (String.compare (snapshot_name d1) (snapshot_name d2)) eqn:E; [|done|done].
      by apply String.compare_eq_iff in E.
Qed.

Lemma latest_two_or_not_enough_history_witness :
  let http_get : string → Response :=
    λ _, Content [mkAsset (Some (JStr "ST")) (Some [tsmc])] in
  (fetch_all plain_decimal http_get target_etfs).1 ≠ [] ∧
  etf_data (monitor_etfs plain_decimal http_get same_table "20250102" yesterday)
    !! snapshot_name "20250102" = Some (Snapshot (Plain [tsmc_row])).
Proof.
  intros http_get.
  assert ((fetch_all plain_decimal http_get target_etfs).1 ≠ []) as H by (by vm_compute).
  split; [exact H|].
  exact (proj1 (latest_two_or_not_enough_history plain_decimal http_get same_table
                  "20250102" yesterday H)).
Defined.

(** * Further properties of the diff *)

Lemma changed_mask_same (x : Holding) : changed_mask (diff_row (x, x)) = false.
Proof.
  apply not_true_iff_false. rewrite changed_mask_iff.
  cbn [diff_row Changed.weight_diff Changed.shares_diff].
  assert (∀ q : Q, binary64 (q - q) = 0%Q) as Hz.
  { intros q. by rewrite (binary64_Qeq (q - q) 0) by apply Qplus_opp_r. }
  rewrite !Hz. intros [H|H]; [by vm_compute in H|by apply H].
Qed.

Lemma changed_mask_swap (c p : Holding) :
  changed_mask (diff_row (p, c)) = changed_mask (diff_row (c, p)).
Proof.
  apply eq_true_iff_eq. rewrite !changed_mask_iff.
  cbn [diff_row Changed.weight_diff Changed.shares_diff].
  assert (∀ x y : Q, binary64 (x - y) = (- binary64 (y - x))%Q) as Hswap.
  { intros x y. rewrite <- binary64_opp. apply binary64_Qeq. ring. }
  rewrite (Hswap (weight p) (weight c)), (Hswap (shares p) (shares c)), Qabs_opp.
  assert ((- binary64 (shares c - shares p) == 0)%Q ↔ (binary64 (shares c - shares p) == 0)%Q)
    as ->; [|done].
  split; intros H; lra.
Qed.

Lemma elem_of_zip_same {A} (l : list A) (x y : A) : (x, y) ∈ zip l l → x = y.
Proof.
  induction l as [|a l IH]; [by intros ?%elem_of_nil|].
  intros [?|?]%elem_of_cons; [by simplify_eq|by apply IH].
Qed.

Lemma difference_diag (self : list string) : difference self self = [].
Proof. unfold difference. by rewrite bool_decide_eq_true_2. Qed.

Lemma compare_etf_same (etf : string) (df : list (string * Holding)) :
  compare_etf etf df df = Some {| new := []; exit := []; changed := [] |}.
Proof.
  apply compare_etf_Some. split; [done|].
  rewrite difference_diag. f_equal.
  replace (filter _ _) with (@nil Changed.row); [done|].
  symmetry. apply filter_none, Forall_forall.
  intros r ([c p] & -> & Hz)%list_elem_of_fmap.
  apply elem_of_zip_same in Hz as ->. by rewrite changed_mask_same.
Qed.

(** Diffing a table against itself: the call returns, and every fund has
    no entered, no exited and no changed row (repeated stock ids or not). *)
Theorem compare_holdings_same (df : DataFrame) :
  ∃ ch, changes (compare_holdings df df) = Some ch ∧
    ∀ etf d, ch !! etf = Some d → new d = [] ∧ exit d = [] ∧ changed d = [].
Proof.
  destruct (changes (compare_holdings df df)) as [ch|] eqn:Hch.
  - exists ch. split; [done|]. intros etf d Hd.
    destruct (compare_holdings_entry _ _ _ _ _ Hch Hd) as [_ Hetf].
    rewrite compare_etf_same in Hetf. by injection Hetf as <-.
  - exfalso. unfold compare_holdings in Hch. cbn [changes] in Hch.
    rewrite !tagged_rows_ensure_ETF in Hch.
    destruct (for_etfs_returns (unique (tagged_rows df).*1) (tagged_rows df)
                (tagged_rows df) ∅) as [ch Hsome]; [|congruence].
    intros etf _. by rewrite compare_etf_same.
Qed.

Lemma compare_holdings_same_witness :
  let df := Tagged [("00981A", A_1000); ("00981A", A_lot2); ("00982A", B_500)] in
  ∃ ch d, changes (compare_holdings df df) = Some ch ∧ ch !! "00982A" = Some d ∧
          new d = [] ∧ exit d = [] ∧ changed d = [].
Proof.
  intros df.
  destruct (compare_holdings_same df) as (ch & Hch & Hall).
  assert (is_Some (ch !! "00982A")) as [d Hd].
  { rewrite (compare_holdings_lookup _ _ _ "00982A" Hch).
    rewrite decide_True by (apply (bool_decide_unpack _); vm_compute; exact I).
    eexists. vm_compute. reflexivity. }
  exists ch, d. split; [done|]. split; [done|]. by apply (Hall "00982A").
Defined.

(** Swapping the two tables swaps Entered and Exited; with the stock ids of
    the fund distinct in each table, a pair of rows is reported as changed
    in one direction exactly when it is reported in the other. *)
Theorem compare_holdings_swap (df_curr df_prev : DataFrame) (ch ch' : gmap string Delta)
    (etf : string) (d d' : Delta) :
  changes (compare_holdings df_curr df_prev) = Some ch → ch !! etf = Some d →
  changes (compare_holdings df_prev df_curr) = Some ch' → ch' !! etf = Some d' →
  new d' = exit d ∧ exit d' = new d ∧
  (NoDup (index (set_index etf (tagged_rows df_curr))) →
   NoDup (index (set_index etf (tagged_rows df_prev))) →
   ∀ c p, c ∈ set_index etf (tagged_rows df_curr) →
          p ∈ set_index etf (tagged_rows df_prev) →
          stock_id c = stock_id p →
          (diff_row (p, c) ∈ changed d' ↔ diff_row (c, p) ∈ changed d)).
Proof.
  intros Hch Hd Hch' Hd'.
  destruct (compare_holdings_entry _ _ _ _ _ Hch Hd) as [_ Hetf].
  destruct (compare_holdings_entry _ _ _ _ _ Hch' Hd') as [_ Hetf'].
  pose proof Hetf as [_ E]%compare_etf_Some.
  pose proof Hetf' as [_ E']%compare_etf_Some.
  split_and!.
  - by rewrite E, E'.
  - by rewrite E, E'.
  - intros Hcurr Hprev c p Hc Hp Eid.
    rewrite (elem_of_changed etf _ _ d' Hprev Hcurr Hetf').
    rewrite (elem_of_changed etf _ _ d Hcurr Hprev Hetf).
    rewrite changed_mask_swap. split; intros [Hm _]; (split; [done|]).
    + by exists c, p.
    + by exists p, c.
Qed.

Lemma compare_holdings_swap_witness :
  let df_prev := Plain [A_1000; B_500] in
  let df_curr := Plain [A_1200] in
  let d := mkDelta [] [B_500] [diff_row (A_1200, A_1000)] in
  let d' := mkDelta [B_500] [] [diff_row (A_1000, A_1200)] in
  new d' = exit d ∧ exit d' = new d.
Proof.
  intros df_prev df_curr d d'.
  assert (changes (compare_holdings df_curr df_prev) = Some {[DEFAULT_ETF := d]}) as Hch
    by (vm_compute; reflexivity).
  assert (changes (compare_holdings df_prev df_curr) = Some {[DEFAULT_ETF := d']}) as Hch'
    by (vm_compute; reflexivity).
  destruct (compare_holdings_swap df_curr df_prev _ _ DEFAULT_ETF d d' Hch eq_refl Hch' eq_refl)
    as (H1 & H2 & _).
  by split.
Defined.

Lemma NoDup_rows (frame : list Holding) : NoDup (index frame) → NoDup frame.
Proof. apply NoDup_fmap_1. Qed.

(** With the stock ids of the fund distinct in each table, the current rows
    of a fund are its entered rows together with the rows of the common
    stock ids, the previous rows its exited rows together with the rows of
    the common stock ids, and the changed rows are at most as many as the
    common stock ids. *)
Theorem delta_partition (df_curr df_prev : DataFrame) (ch : gmap string Delta)
    (etf : string) (d : Delta) :
  changes (compare_holdings df_curr df_prev) = Some ch → ch !! etf = Some d →
  NoDup (index (set_index etf (tagged_rows df_curr))) →
  NoDup (index (set_index etf (tagged_rows df_prev))) →
  let curr_etf := set_index etf (tagged_rows df_curr) in
  let prev_etf := set_index etf (tagged_rows df_prev) in
  let common_stocks := intersection (index curr_etf) (index prev_etf) in
  curr_etf ≡ₚ (new d ++ loc common_stocks curr_etf)%list ∧
  prev_etf ≡ₚ (exit d ++ loc common_stocks prev_etf)%list ∧
  length (new d) + length common_stocks = length curr_etf ∧
  length (exit d) + length common_stocks = length prev_etf ∧
  (length (changed d) ≤ length common_stocks)%nat.
Proof.
  intros Hch Hd Hcurr Hprev curr_etf prev_etf common_stocks.
  destruct (compare_holdings_entry _ _ _ _ _ Hch Hd) as [_ Hetf].
  pose proof Hetf as [Ealign E]%compare_etf_Some.
  fold curr_etf prev_etf in Ealign, E. fold common_stocks in Ealign, E.
  destruct (common_once_index etf _ _ (NoDup_common_once etf _ _ Hcurr Hprev)) as [Ec Ep].
  fold curr_etf prev_etf in Ec, Ep. fold common_stocks in Ec, Ep.
  assert (∀ (self other : list Holding) (labels : list string),
            NoDup (index self) → NoDup labels →
            (∀ l, l ∈ labels ↔ l ∈ index self ∧ l ∈ index other) →
            self ≡ₚ (loc (difference (index self) (index other)) self ++
                     loc labels self)%list)
    as Hsplit.
  { intros self other labels Hself Hlabels Hin.
    assert (index (loc (difference (index self) (index other)) self)
            = difference (index self) (index other)) as E1.
    { apply index_loc_once. intros l [Hl _]%elem_of_difference_index.
      by apply rows_of_NoDup. }
    assert (index (loc labels self) = labels) as E2.
    { apply index_loc_once. intros l [Hl _]%Hin. by apply rows_of_NoDup. }
    apply NoDup_Permutation.
    - by apply NoDup_rows.
    - apply NoDup_app. split_and!.
      + apply NoDup_rows. rewrite E1. apply NoDup_difference.
      + intros r [Hr _]%elem_of_loc [Hr' _]%elem_of_loc.
        apply elem_of_difference_index in Hr as [_ Hr]. by apply Hin in Hr' as [_ ?].
      + apply NoDup_rows. by rewrite E2.
    - intros r. rewrite elem_of_app, !elem_of_loc, elem_of_difference_index, Hin.
      split; [|tauto]. intros Hr.
      assert (stock_id r ∈ index self) by (apply elem_of_index; eauto).
      destruct (decide (stock_id r ∈ index other)); tauto. }
  assert (curr_etf ≡ₚ (new d ++ loc common_stocks curr_etf)%list) as Pc.
  { rewrite E. cbn [new]. apply Hsplit; [done|apply NoDup_intersection|].
    intros l. apply elem_of_intersection_index. }
  assert (prev_etf ≡ₚ (exit d ++ loc common_stocks prev_etf)%list) as Pp.
  { rewrite E. cbn [exit]. apply Hsplit; [done|apply NoDup_intersection|].
    intros l. unfold common_stocks. rewrite elem_of_intersection_index. tauto. }
  assert (length (loc common_stocks curr_etf) = length common_stocks) as Lc.
  { rewrite <- Ec at 2. unfold index. by rewrite length_fmap. }
  assert (length (loc common_stocks prev_etf) = length common_stocks) as Lp.
  { rewrite <- Ep at 2. unfold index. by rewrite length_fmap. }
  split_and!; [done|done| | |].
  - rewrite (Permutation_length Pc), length_app. lia.
  - rewrite (Permutation_length Pp), length_app. lia.
  - rewrite E. cbn [changed]. rewrite sort_values_Permutation.
    etrans; [apply length_filter|].
    rewrite length_fmap, length_zip. lia.
Qed.

Lemma delta_partition_witness :
  let df_prev := Plain [A_1000; B_500] in
  let df_curr := Plain [A_1200] in
  let d := mkDelta [] [B_500] [diff_row (A_1200, A_1000)] in
  length (exit d) + length (intersection ["A"] ["A"; "B"]) = 2.
Proof.
  intros df_prev df_curr d.
  assert (changes (compare_holdings df_curr df_prev) = Some {[DEFAULT_ETF := d]}) as Hch
    by (vm_compute; reflexivity).
  refine (proj1 (proj2 (proj2 (proj2
    (delta_partition df_curr df_prev _ DEFAULT_ETF d Hch eq_refl _ _))))).
  - apply (bool_decide_unpack _); vm_compute; exact I.
  - apply (bool_decide_unpack _); vm_compute; exact I.
Defined.

(** Whatever the tables, a row is reported as changed only if it differs.
    Its difference columns are the float differences current minus
    previous; the float weight difference is above the float 0.001, so
    that the two weights are more than 0.000999999999999 apart, or the
    share counts differ; and its stock id is in both tables of the fund. *)
Theorem changed_rows_differ (df_curr df_prev : DataFrame) (ch : gmap string Delta)
    (etf : string) (d : Delta) (r : Changed.row) :
  changes (compare_holdings df_curr df_prev) = Some ch → ch !! etf = Some d →
  r ∈ changed d →
  Changed.weight_diff r = binary64 (Changed.weight_curr r - Changed.weight_prev r) ∧
  Changed.shares_diff r = binary64 (Changed.shares_curr r - Changed.shares_prev r) ∧
  ((binary64 0.001 < Qabs (Changed.weight_diff r))%Q ∨
   ¬ (Changed.shares_curr r == Changed.shares_prev r)%Q) ∧
  ((0.000999999999999 < Qabs (Changed.weight_curr r - Changed.weight_prev r))%Q ∨
   ¬ (Changed.shares_curr r == Changed.shares_prev r)%Q) ∧
  (∃ c p, c ∈ set_index etf (tagged_rows df_curr) ∧
          p ∈ set_index etf (tagged_rows df_prev) ∧
          stock_id c = Changed.stock_id r ∧ stock_id p = Changed.stock_id r ∧
          r = diff_row (c, p)).
Proof.
  intros Hch Hd Hr.
  destruct (compare_holdings_entry _ _ _ _ _ Hch Hd) as [_ [E ->]%compare_etf_Some].
  cbn [changed] in Hr. rewrite sort_values_Permutation in Hr.
  apply list_elem_of_filter in Hr as [Hm Hr].
  apply list_elem_of_fmap in Hr as ([c p] & -> & Hz).
  apply changed_mask_iff in Hm.
  cbn [diff_row Changed.weight_diff Changed.shares_diff Changed.weight_curr
       Changed.weight_prev Changed.shares_curr Changed.shares_prev Changed.stock_id] in *.
  rewrite binary64_diff_zero in Hm.
  split_and!; [done|done|done| |].
  - destruct Hm as [Hm|Hm]; [left|by right].
    destruct (binary64_abs_bounds (weight c - weight p)) as [_ Hup].
    assert (0.000999999999999 * (1 + (1 # 9007199254740992)) < binary64 0.001)%Q as Hc
      by (vm_compute; reflexivity).
    lra.
  - exists c, p. pose proof (zip_same_label _ _ _ _ E Hz) as Eid.
    split_and!; [| |done|done|done].
    + apply elem_of_zip_l in Hz. by apply elem_of_loc in Hz as [_ ?].
    + apply elem_of_zip_r in Hz. by apply elem_of_loc in Hz as [_ ?].
Qed.

Lemma changed_rows_differ_witness :
  let r := diff_row (A_5001, A_1000) in
  Changed.weight_diff r = binary64 (Changed.weight_curr r - Changed.weight_prev r) ∧
  (binary64 0.001 < Qabs (Changed.weight_diff r))%Q.
Proof.
  intros r.
  assert (changes (compare_holdings (Plain [A_5001]) (Plain [A_1000]))
          = Some {[DEFAULT_ETF := mkDelta [] [] [r]]}) as Hch by (vm_compute; reflexivity).
  assert (r ∈ changed (mkDelta [] [] [r])) as Hr by left.
  split.
  - exact (proj1 (changed_rows_differ (Plain [A_5001]) (Plain [A_1000]) _
                    DEFAULT_ETF _ r Hch eq_refl Hr)).
  - vm_compute. reflexivity.
Defined.

Lemma ensure_ETF_idemp (df : DataFrame) : ensure_ETF (ensure_ETF df) = ensure_ETF df.
Proof. by destruct df. Qed.

(** Calling [compare_holdings] again on the two tables as the first call
    left them changes nothing more and returns the same dictionary. *)
Theorem compare_holdings_again (df_curr df_prev : DataFrame) :
  let o := compare_holdings df_curr df_prev in
  compare_holdings (df_curr_after o) (df_prev_after o) = o.
Proof.
  unfold compare_holdings. cbn [df_curr_after df_prev_after].
  by rewrite !ensure_ETF_idemp, !tagged_rows_ensure_ETF.
Qed.

Lemma set_index_default (rows : list Holding) :
  set_index DEFAULT_ETF (pair DEFAULT_ETF <$> rows) = rows.
Proof.
  unfold set_index. induction rows as [|r rows IH]; [done|].
  rewrite fmap_cons, filter_cons, decide_True by done.
  rewrite fmap_cons. simpl. f_equal. apply IH.
Qed.

(** A table without the ETF column is diffed as the single fund '00981A'
    made of all its rows: the result of a call that returns has that one
    key, and the fund's current and previous rows are the whole tables. *)
Theorem compare_holdings_plain (curr_rows prev_rows : list Holding)
    (ch : gmap string Delta) :
  curr_rows ≠ [] →
  changes (compare_holdings (Plain curr_rows) (Plain prev_rows)) = Some ch →
  dom ch = {[DEFAULT_ETF]} ∧
  set_index DEFAULT_ETF (tagged_rows (Plain curr_rows)) = curr_rows ∧
  set_index DEFAULT_ETF (tagged_rows (Plain prev_rows)) = prev_rows ∧
  ch !! DEFAULT_ETF = compare_etf DEFAULT_ETF (pair DEFAULT_ETF <$> curr_rows)
                                              (pair DEFAULT_ETF <$> prev_rows).
Proof.
  intros Hne Hch.
  assert (∀ etf, etf ∈ (tagged_rows (Plain curr_rows)).*1 ↔ etf = DEFAULT_ETF) as Hfunds.
  { intros etf. cbn [tagged_rows]. rewrite <- list_fmap_compose.
    rewrite list_elem_of_fmap. split.
    - by intros (r & -> & _).
    - intros ->. destruct curr_rows as [|r ?]; [done|]. exists r. split; [done|left]. }
  split_and!.
  - apply set_eq. intros etf. rewrite elem_of_dom, elem_of_singleton, <- Hfunds.
    rewrite (compare_holdings_lookup _ _ _ etf Hch). case_decide as Hin.
    + split; [done|]. intros _. by eapply compare_holdings_all.
    + split; [by intros [? ?]|done].
  - apply set_index_default.
  - apply set_index_default.
  - rewrite (compare_holdings_lookup _ _ _ DEFAULT_ETF Hch).
    by rewrite decide_True by (by apply Hfunds).
Qed.

Lemma compare_holdings_plain_witness :
  let d := mkDelta [] [] [diff_row (A_1200, A_1000)] in
  dom ({[DEFAULT_ETF := d]} : gmap string Delta) = {[DEFAULT_ETF]}.
Proof.
  intros d.
  refine (proj1 (compare_holdings_plain [A_1200] [A_1000] {[DEFAULT_ETF := d]} _ _)).
  - done.
  - vm_compute; reflexivity.
Defined.

(** * Further properties of the scraper *)

Lemma mapM_app_option {A B} (f : A → option B) (l1 l2 : list A) :
  mapM f (l1 ++ l2) = (r1 ← mapM f l1; r2 ← mapM f l2; Some (r1 ++ r2)%list).
Proof.
  induction l1 as [|x l1 IH]; simpl.
  - by destruct (mapM f l2).
  - destruct (f x) as [y|]; simpl; [|done]. rewrite IH.
    destruct (mapM f l1); simpl; [|done]. by destruct (mapM f l2).
Qed.

Lemma stock_rows_app (d1 d2 : list Asset) :
  stock_rows (d1 ++ d2) = (stock_rows d1 ++ stock_rows d2)%list.
Proof. unfold stock_rows. apply bind_app. Qed.

Lemma stock_rows_none (data : list Asset) :
  Forall (λ item, stock_details item = None) data → stock_rows data = [].
Proof.
  induction 1 as [|item data Hitem _ IH]; [done|].
  by rewrite stock_rows_cons, Hitem, IH.
Qed.

Lemma parse_holdings_mapM (str_to_float : string → option Q) (data : list Asset) :
  parse_holdings str_to_float data = mapM (parse_detail str_to_float) (stock_rows data).
Proof.
  induction data as [|item data IH]; [done|].
  rewrite stock_rows_cons, mapM_app_option. cbn [parse_holdings].
  destruct (stock_details item) as [details|]; cbn [default from_option id].
  - by rewrite IH.
  - csimpl. rewrite IH. by destruct (mapM _ _).
Qed.

(** The parsing loop is the row-by-row conversion of the details of the
    stock assets, in payload order: it returns a table exactly when every
    such detail converts, and the rows are then the converted details, one
    for one. *)
Theorem parse_holdings_rows (str_to_float : string → option Q) (data : list Asset) :
  parse_holdings str_to_float data = mapM (parse_detail str_to_float) (stock_rows data) ∧
  ∀ rows, parse_holdings str_to_float data = Some rows ↔
          Forall2 (λ detail row, parse_detail str_to_float detail = Some row)
                  (stock_rows data) rows.
Proof.
  split; [apply parse_holdings_mapM|].
  intros rows. rewrite parse_holdings_mapM. apply mapM_Some.
Qed.

Lemma parse_holdings_rows_witness :
  parse_holdings plain_decimal [mkAsset (Some (JStr "ST")) (Some [tsmc])] = Some [tsmc_row].
Proof.
  apply (proj2 (parse_holdings_rows plain_decimal _) [tsmc_row]).
  repeat constructor.
Defined.

(** Assets that are not stock assets play no part: wherever one stands in
    the payload, the parsed table is the same without it, whatever its
    details hold; and a payload made of such assets only is answered with
    None and the no-stock-holdings message, not with a parse error. *)
Theorem other_assets_ignored (str_to_float : string → option Q)
    (http_get : string → Response) :
  (∀ data1 item data2, stock_details item = None →
     parse_holdings str_to_float (data1 ++ item :: data2)
     = parse_holdings str_to_float (data1 ++ data2)) ∧
  (∀ etf_code url data,
     url_map etf_code = Some url → http_get url = Content data →
     Forall (λ item, stock_details item = None) data →
     fetch_holdings str_to_float http_get etf_code
     = (None, [Fetching url; NoStockHoldings etf_code])).
Proof.
  split.
  - intros data1 item data2 Hitem.
    rewrite !parse_holdings_mapM.
    by rewrite !stock_rows_app, stock_rows_cons, Hitem.
  - intros etf_code url data Hurl Hget Hdata.
    pose proof (stock_rows_none data Hdata) as Hnil.
    unfold fetch_holdings. rewrite Hurl, Hget.
    by rewrite parse_holdings_mapM, Hnil.
Qed.

Lemma other_assets_ignored_witness :
  let cash := mkAsset (Some (JStr "CASH")) (Some [mediatek_bad]) in
  parse_holdings plain_decimal [cash; mkAsset (Some (JStr "ST")) (Some [tsmc])]
  = parse_holdings plain_decimal [mkAsset (Some (JStr "ST")) (Some [tsmc])].
Proof.
  intros cash.
  exact (proj1 (other_assets_ignored plain_decimal (λ _, BadContent)) [] cash
           [mkAsset (Some (JStr "ST")) (Some [tsmc])] eq_refl).
Defined.

(** The page is saved for debugging exactly when it was received but its
    payload could not be used: the DataAsset element is missing, its
    content is not the expected JSON, or a detail fails to convert. A
    failed request, an unknown fund code and a payload without stock
    holdings save nothing. *)
Theorem debug_page_saved (str_to_float : string → option Q)
    (http_get : string → Response) (etf_code : string) :
  SavedDebugHtml etf_code ∈ (fetch_holdings str_to_float http_get etf_code).2 ↔
  ∃ url, url_map etf_code = Some url ∧
    (http_get url = NoDataAsset ∨ http_get url = BadContent ∨
     ∃ data, http_get url = Content data ∧ parse_holdings str_to_float data = None).
Proof.
  assert (∀ e1 e2 e3 : Event, e1 ∈ [e2; e3] ↔ e1 = e2 ∨ e1 = e3) as H2.
  { intros. rewrite elem_of_cons, list_elem_of_singleton. done. }
  assert (∀ e1 e2 e3 e4 : Event, e1 ∈ [e2; e3; e4] ↔ e1 = e2 ∨ e1 = e3 ∨ e1 = e4) as H3.
  { intros. rewrite elem_of_cons, H2. done. }
  unfold fetch_holdings. destruct (url_map etf_code) as [url|]; cbn [snd].
  - destruct (http_get url) as [| | |data] eqn:Hget; cbn [snd].
    + rewrite H2. split; [by intros [?|?]|].
      intros (u & Hu & Hcases). injection Hu as <-.
      destruct Hcases as [?|[?|(? & ? & ?)]]; congruence.
    + rewrite H3. split; [|auto]. intros _. exists url. auto.
    + rewrite H3. split; [|auto]. intros _. exists url. auto.
    + destruct (parse_holdings str_to_float data) as [[|r rows]|] eqn:Hparse; cbn [snd].
      * rewrite H2. split; [by intros [?|?]|].
        intros (u & Hu & Hcases). injection Hu as <-.
        destruct Hcases as [?|[?|(? & ? & ?)]]; congruence.
      * rewrite list_elem_of_singleton. split; [done|].
        intros (u & Hu & Hcases). injection Hu as <-.
        destruct Hcases as [?|[?|(? & ? & ?)]]; congruence.
      * rewrite H3. split; [|auto]. intros _. exists url. split; [done|].
        right. right. by exists data.
  - rewrite list_elem_of_singleton. split; [done|]. by intros (? & ? & _).
Qed.

Lemma debug_page_saved_witness :
  let http_get : string → Response :=
    λ _, Content [mkAsset (Some (JStr "ST")) (Some [tsmc; mediatek_bad])] in
  SavedDebugHtml "00981A" ∈ (fetch_holdings plain_decimal http_get "00981A").2.
Proof.
  intros http_get.
  apply (debug_page_saved plain_decimal http_get "00981A").
  eexists. split; [reflexivity|]. right. right. eexists. split; [reflexivity|].
  vm_compute. reflexivity.
Defined.

(** ** [strip] *)

Lemma chars_rev_app (s1 s2 : string) :
  list_ascii_of_string (String.rev_app s1 s2)
  = (reverse (list_ascii_of_string s1) ++ list_ascii_of_string s2)%list.
Proof.
  revert s2. induction s1 as [|c s1 IH]; intros s2; [done|].
  cbn [String.rev_app list_ascii_of_string]. rewrite IH, reverse_cons.
  by rewrite <- app_assoc.
Qed.

Lemma chars_rev (s : string) :
  list_ascii_of_string (String.rev s) = reverse (list_ascii_of_string s).
Proof. unfold String.rev. by rewrite chars_rev_app, app_nil_r. Qed.

Lemma chars_inj (s1 s2 : string) :
  list_ascii_of_string s1 = list_ascii_of_string s2 → s1 = s2.
Proof.
  intros E. rewrite <- (string_of_list_ascii_of_string s1).
  by rewrite E, string_of_list_ascii_of_string.
Qed.

Lemma string_rev_involutive (s : string) : String.rev (String.rev s) = s.
Proof. apply chars_inj. by rewrite !chars_rev, reverse_involutive. Qed.

Lemma lstrip_spec (s : string) :
  starts_with_space (lstrip s) = false ∧
  ∃ a, list_ascii_of_string s = (a ++ list_ascii_of_string (lstrip s))%list ∧
       Forall (λ c, isspace c = true) a.
Proof.
  induction s as [|c s [IH1 (a & IH2 & IH3)]]; [split; [done|by exists []]|].
  cbn [lstrip]. destruct (isspace c) eqn:Hc.
  - split; [done|]. exists (c :: a).
    split; [cbn [list_ascii_of_string]; by rewrite IH2|by constructor].
  - split; [done|]. by exists [].
Qed.

Lemma lstrip_id (s : string) : starts_with_space s = false → lstrip s = s.
Proof. destruct s as [|c s]; [done|]. simpl. by intros ->. Qed.

(** [strip] removes whitespace from the two ends and nothing else: the
    string is its stripped form between two runs of whitespace, and the
    stripped form neither begins nor ends with whitespace. *)
Lemma strip_parts (s : string) :
  (∃ a b, list_ascii_of_string s
          = (a ++ list_ascii_of_string (strip s) ++ b)%list ∧
          Forall (λ c, isspace c = true) a ∧ Forall (λ c, isspace c = true) b) ∧
  starts_with_space (strip s) = false ∧
  starts_with_space (String.rev (strip s)) = false.
Proof.
  destruct (lstrip_spec s) as [Ht (a & Ea & Ha)].
  destruct (lstrip_spec (String.rev (lstrip s))) as [Hu (b & Eb & Hb)].
  assert (strip s = String.rev (lstrip (String.rev (lstrip s)))) as -> by done.
  set (t := lstrip s) in *. set (u := lstrip (String.rev t)) in *.
  rewrite chars_rev in Eb.
  assert (list_ascii_of_string t
          = (list_ascii_of_string (String.rev u) ++ reverse b)%list) as Et.
  { rewrite chars_rev, <- reverse_app, <- Eb. by rewrite reverse_involutive. }
  assert (starts_with_space (String.rev u) = false) as Hhead.
  { destruct (String.rev u) as [|c r] eqn:Er; [done|].
    destruct t as [|c' t']; [done|]. simpl in Et. by injection Et as -> _. }
  assert (starts_with_space (String.rev (String.rev u)) = false) as Htail
    by (by rewrite string_rev_involutive).
  split_and!; [|done|done].
  exists a, (reverse b). rewrite Ea, Et. split; [done|].
  split; [done|]. by apply Forall_reverse.
Qed.

Lemma strip_idemp (s : string) : strip (strip s) = strip s.
Proof.
  destruct (strip_parts s) as (_ & Hhead & Htail).
  unfold strip at 1. rewrite (lstrip_id _ Hhead), (lstrip_id _ Htail).
  apply string_rev_involutive.
Qed.

Lemma parse_detail_stripped (str_to_float : string → option Q) (detail : Detail)
    (row : Holding) :
  parse_detail str_to_float detail = Some row →
  (starts_with_space (stock_id row) = false ∧
   starts_with_space (String.rev (stock_id row)) = false) ∧
  (starts_with_space (stock_name row) = false ∧
   starts_with_space (String.rev (stock_name row)) = false).
Proof.
  unfold parse_detail, stripped. intros H.
  destruct (default (JStr "") (DetailCode detail)) as [| | |code|];
    csimpl in H; try done.
  destruct (default (JStr "") (DetailName detail)) as [| | |name|];
    csimpl in H; try done.
  destruct (float str_to_float (default _ (Share detail))); csimpl in H; [|done].
  destruct (float str_to_float (default _ (NavRate detail))); csimpl in H; [|done].
  destruct (float str_to_float (default _ (Amount detail))); csimpl in H; [|done].
  injection H as <-. cbn [stock_id stock_name].
  split; apply strip_parts.
Qed.

(** Every row of a fetched table carries a stock id and a name without
    whitespace at either end, whatever padding the payload has around
    them. *)
Theorem fetched_rows_stripped (str_to_float : string → option Q)
    (http_get : string → Response) (etf_code : string) (rows : list Holding) :
  (fetch_holdings str_to_float http_get etf_code).1 = Some rows →
  Forall (λ r, (starts_with_space (stock_id r) = false ∧
                starts_with_space (String.rev (stock_id r)) = false) ∧
               (starts_with_space (stock_name r) = false ∧
                starts_with_space (String.rev (stock_name r)) = false)) rows.
Proof.
  intros (_ & url & data & _ & _ & Hparse)%fetch_holdings_Some.
  rewrite parse_holdings_mapM in Hparse. apply mapM_Some in Hparse.
  apply Forall_forall. intros r Hr.
  apply list_elem_of_lookup in Hr as [i Hi].
  destruct (Forall2_lookup_r _ _ _ _ _ Hparse Hi) as (detail & _ & Hdetail).
  by eapply parse_detail_stripped.
Qed.

Lemma fetched_rows_stripped_witness :
  let padded := mkDetail (Some (JStr "  2330 ")) (Some (JStr " TSMC")) None None None in
  let http_get : string → Response :=
    λ _, Content [mkAsset (Some (JStr "ST")) (Some [padded])] in
  (fetch_holdings plain_decimal http_get "00981A").1 = Some [mkHolding "2330" "TSMC" 0 0 0] ∧
  Forall (λ r, (starts_with_space (stock_id r) = false ∧
                starts_with_space (String.rev (stock_id r)) = false) ∧
               (starts_with_space (stock_name r) = false ∧
                starts_with_space (String.rev (stock_name r)) = false))
         [mkHolding "2330" "TSMC" 0 0 0].
Proof.
  intros padded http_get.
  assert ((fetch_holdings plain_decimal http_get "00981A").1
          = Some [mkHolding "2330" "TSMC" 0 0 0]) as H by (vm_compute; reflexivity).
  split; [exact H|].
  exact (fetched_rows_stripped plain_decimal http_get "00981A" _ H).
Defined.

(** * Further properties of the run *)

(** ** Names of the files *)

Lemma chars_app (s1 s2 : string) :
  list_ascii_of_string (s1 ++ s2)
  = (list_ascii_of_string s1 ++ list_ascii_of_string s2)%list.
Proof.
  induction s1 as [|c s1 IH]; [done|].
  rewrite string_app_cons. cbn [list_ascii_of_string]. by rewrite IH.
Qed.

Lemma string_rev_app (s1 s2 : string) :
  String.rev (s1 ++ s2) = String.rev s2 ++ String.rev s1.
Proof. apply chars_inj. by rewrite chars_rev, !chars_app, !chars_rev, reverse_app. Qed.

Lemma prefix_app (p s : string) : String.prefix p (p ++ s) = true.
Proof.
  induction p as [|c p IH]; [by destruct s|].
  rewrite string_app_cons. simpl. by destruct (ascii_dec c c).
Qed.

Lemma prefix_app_r (p s x : string) :
  String.prefix p s = true → String.prefix p (s ++ x) = true.
Proof.
  revert s. induction p as [|c p IH]; intros s H; [by destruct (s ++ x)|].
  destruct s as [|d s]; [done|]. rewrite string_app_cons.
  simpl in *. destruct (ascii_dec c d); [by apply IH|done].
Qed.

Lemma is_snapshot_snapshot_name (timestamp : string) :
  is_snapshot (snapshot_name timestamp) = true.
Proof.
  unfold is_snapshot, snapshot_name, startswith, endswith.
  rewrite prefix_app, !string_rev_app. simpl.
  apply prefix_app_r, prefix_app.
Qed.

Lemma is_snapshot_report_name (date_str : string) :
  is_snapshot (report_name date_str) = false.
Proof. unfold is_snapshot, report_name, startswith. by rewrite string_app_cons. Qed.

(** ** The snapshot list depends on the snapshot names only *)

Lemma snapshot_files_ext (dir1 dir2 : gmap string File) :
  (∀ f, is_snapshot f = true → (is_Some (dir1 !! f) ↔ is_Some (dir2 !! f))) →
  snapshot_files dir1 = snapshot_files dir2.
Proof.
  intros H. apply (StronglySorted_unique String.le); [apply Sorted_snapshot_files..|].
  apply NoDup_Permutation; [apply NoDup_snapshot_files..|].
  intros f. rewrite !elem_of_snapshot_files. split; intros [Hf ?]; (split; [done|]);
    by apply (H f Hf).
Qed.

Lemma snapshot_files_insert_report (dir : gmap string File) (date_str : string)
    (x : File) :
  snapshot_files (<[report_name date_str := x]> dir) = snapshot_files dir.
Proof.
  apply snapshot_files_ext. intros f Hf. rewrite lookup_insert_ne; [done|].
  intros <-. by rewrite is_snapshot_report_name in Hf.
Qed.

Lemma snapshot_files_insert_id (dir : gmap string File) (f : string) (x : File) :
  is_Some (dir !! f) → snapshot_files (<[f := x]> dir) = snapshot_files dir.
Proof.
  intros Hf. apply snapshot_files_ext. intros g _.
  destruct (decide (f = g)) as [<-|Hne].
  - rewrite lookup_insert_eq. split; [done|]. by eexists.
  - by rewrite lookup_insert_ne.
Qed.

Lemma snapshot_files_first (dir : gmap string File) (timestamp : string) (x : File) :
  snapshot_files dir = [] →
  snapshot_files (<[snapshot_name timestamp := x]> dir) = [snapshot_name timestamp].
Proof.
  intros Hnil. apply (StronglySorted_unique String.le).
  - apply Sorted_snapshot_files.
  - repeat constructor.
  - apply NoDup_Permutation; [apply NoDup_snapshot_files|apply NoDup_singleton|].
    intros f. rewrite elem_of_snapshot_files, list_elem_of_singleton. split.
    + intros [Hf Hin]. destruct (decide (snapshot_name timestamp = f)) as [|Hne]; [done|].
      rewrite lookup_insert_ne in Hin by done.
      assert (f ∈ snapshot_files dir) as Hold by (by apply elem_of_snapshot_files).
      rewrite Hnil in Hold. by apply elem_of_nil in Hold.
    + intros ->. split; [apply is_snapshot_snapshot_name|].
      rewrite lookup_insert_eq. by eexists.
Qed.

(** ** The run, case by case *)

Section run_cases.
Variables (str_to_float : string → option Q) (http_get : string → Response).
Variable pd_read_csv : DataFrame → option DataFrame.
Variable timestamp : string.

Lemma monitor_etfs_fetched (dir : gmap string File) :
  let fetched := fetch_all str_to_float http_get target_etfs in
  let final_df := Plain (mjoin fetched.1) in
  let written := <[snapshot_name timestamp := Snapshot final_df]> dir in
  let c := comparison pd_read_csv timestamp final_df written in
  fetched.1 ≠ [] →
  monitor_etfs str_to_float http_get pd_read_csv timestamp dir =
    {| returned := returned c; etf_data := etf_data c;
       printed := (fetched.2 ++ Saved (snapshot_name timestamp) :: printed c)%list |}.
Proof.
  intros fetched final_df written c Hne.
  unfold monitor_etfs, c, written, final_df. fold fetched.
  destruct fetched as [all_data out]. simpl in *.
  by rewrite bool_decide_eq_true_2.
Qed.

Lemma monitor_etfs_not_fetched (dir : gmap string File) :
  let fetched := fetch_all str_to_float http_get target_etfs in
  fetched.1 = [] →
  monitor_etfs str_to_float http_get pd_read_csv timestamp dir =
    {| returned := None; etf_data := dir;
       printed := (fetched.2 ++ [NoDataFetched])%list |}.
Proof.
  intros fetched Hnil. unfold monitor_etfs. fold fetched.
  destruct fetched as [all_data out]. simpl in *. subst.
  by rewrite bool_decide_eq_false_2 by (by intros []).
Qed.

(** The comparison block ends in one of three ways. *)
Lemma comparison_cases (final_df : DataFrame) (dir : gmap string File) :
  let files := snapshot_files dir in
  let c := comparison pd_read_csv timestamp final_df dir in
  (length files < 2 ∧
   c = {| returned := Some final_df; etf_data := dir; printed := [NotEnoughHistory] |}) ∨
  ((2 ≤ length files)%nat ∧
   ∃ prev_file curr_file,
     files !! (length files - 2) = Some prev_file ∧
     files !! (length files - 1) = Some curr_file ∧
     ((∃ df_curr df_prev diff_data,
         read_csv pd_read_csv dir curr_file = Some df_curr ∧
         read_csv pd_read_csv dir prev_file = Some df_prev ∧
         changes (compare_holdings df_curr df_prev) = Some diff_data ∧
         c = {| returned := Some (ensure_ETF final_df);
                etf_data := <[report_name timestamp := Report diff_data]> dir;
                printed := [Comparing curr_file prev_file;
                            ReportGenerated (report_name timestamp);
                            IndexUpdated timestamp] |}) ∨
      ((read_csv pd_read_csv dir curr_file = None ∨
        read_csv pd_read_csv dir prev_file = None ∨
        ∃ df_curr df_prev,
          read_csv pd_read_csv dir curr_file = Some df_curr ∧
          read_csv pd_read_csv dir prev_file = Some df_prev ∧
          changes (compare_holdings df_curr df_prev) = None) ∧
       (returned c = Some final_df ∨ returned c = Some (ensure_ETF final_df)) ∧
       etf_data c = dir ∧
       printed c = [Comparing curr_file prev_file; ComparisonFailed]))).
Proof.
  intros files c.
  destruct (decide (length files < 2)) as [Hlen|Hlen].
  { left. split; [done|]. by apply comparison_not_enough. }
  right. assert (2 ≤ length files)%nat as Hlen' by lia. split; [done|].
  destruct (files !! (length files - 2)) as [prev_file|] eqn:Hprev;
    [|apply lookup_ge_None in Hprev; lia].
  destruct (files !! (length files - 1)) as [curr_file|] eqn:Hcurr;
    [|apply lookup_ge_None in Hcurr; lia].
  exists prev_file, curr_file. split; [done|]. split; [done|].
  unfold c, comparison. fold files.
  rewrite bool_decide_eq_true_2, Hprev, Hcurr by done. cbn [default from_option id].
  destruct (read_csv pd_read_csv dir curr_file) as [df_curr|]; [|right; auto].
  destruct (read_csv pd_read_csv dir prev_file) as [df_prev|]; [|right; auto].
  destruct (changes (compare_holdings df_curr df_prev)) as [diff_data|] eqn:Hch.
  - left. exists df_curr, df_prev, diff_data. done.
  - right. split; [|auto]. right. right. by exists df_curr, df_prev.
Qed.
End run_cases.

(** The first run: a directory without snapshot files gets the snapshot of
    the day and nothing else, and the run reports that there is not enough
    history. *)
Theorem first_run (str_to_float : string → option Q) (http_get : string → Response)
    (pd_read_csv : DataFrame → option DataFrame)
    (timestamp : string) (dir : gmap string File) :
  let fetched := fetch_all str_to_float http_get target_etfs in
  let final_df := Plain (mjoin fetched.1) in
  fetched.1 ≠ [] → snapshot_files dir = [] →
  monitor_etfs str_to_float http_get pd_read_csv timestamp dir =
    {| returned := Some final_df;
       etf_data := <[snapshot_name timestamp := Snapshot final_df]> dir;
       printed := (fetched.2 ++ [Saved (snapshot_name timestamp); NotEnoughHistory])%list |}.
Proof.
  intros fetched final_df Hne Hnil.
  rewrite monitor_etfs_fetched by done. fold fetched. fold final_df.
  rewrite comparison_not_enough; [done|].
  rewrite snapshot_files_first by done. simpl. lia.
Qed.

Lemma first_run_witness :
  let http_get : string → Response :=
    λ _, Content [mkAsset (Some (JStr "ST")) (Some [tsmc])] in
  etf_data (monitor_etfs plain_decimal http_get same_table "20250102" ∅)
  = {[snapshot_name "20250102" := Snapshot (Plain [tsmc_row])]}.
Proof.
  intros http_get.
  rewrite (first_run plain_decimal http_get same_table "20250102" ∅).
  - vm_compute. reflexivity.
  - by vm_compute.
  - vm_compute. reflexivity.
Defined.



(** The file compared as current is the last of the sorted list, whatever
    was just fetched: when the directory holds a snapshot whose name sorts
    after the day's (a later date stamp), that file is the one compared,
    against the one before it. *)
Theorem later_snapshot_is_current (str_to_float : string → option Q)
    (http_get : string → Response) (pd_read_csv : DataFrame → option DataFrame)
    (timestamp : string) (dir : gmap string File)
    (later : string) :
  let fetched := fetch_all str_to_float http_get target_etfs in
  let today := snapshot_name timestamp in
  fetched.1 ≠ [] →
  later ∈ snapshot_files dir → later ≠ today → String.le today later →
  Forall (λ f, String.le f later) (snapshot_files dir) →
  ∃ prev_file rest,
    printed (monitor_etfs str_to_float http_get pd_read_csv timestamp dir)
    = (fetched.2 ++ Saved today :: Comparing later prev_file :: rest)%list ∧
    prev_file ≠ later ∧ String.le today prev_file.
Proof.
  intros fetched today Hne Hlater Hlater_ne Hle Hmax.
  rewrite Forall_forall in Hmax.
  rewrite monitor_etfs_fetched by done. fold fetched. fold today.
  set (final_df := Plain (mjoin fetched.1)).
  set (written := <[today := Snapshot final_df]> dir).
  assert (∀ f, f ∈ snapshot_files written ↔ f = today ∨ f ∈ snapshot_files dir) as Hfiles.
  { intros f. rewrite !elem_of_snapshot_files. unfold written.
    destruct (decide (today = f)) as [<-|Hf].
    - rewrite lookup_insert_eq. split; [auto|]. intros _.
      split; [apply is_snapshot_snapshot_name|by eexists].
    - rewrite lookup_insert_ne by done. split; [auto|]. by intros [?|?]. }
  assert (2 ≤ length (snapshot_files written))%nat as Hlen.
  { pose proof (NoDup_snapshot_files written) as Hnd.
    assert (today ∈ snapshot_files written) as H1 by (apply Hfiles; auto).
    assert (later ∈ snapshot_files written) as H2 by (apply Hfiles; auto).
    destruct (snapshot_files written) as [|x [|y l]]; simpl; [|exfalso|lia].
    - by apply elem_of_nil in H1.
    - apply list_elem_of_singleton in H1, H2. congruence. }
  destruct (sorted_last_two (snapshot_files written)) as
    (prev' & curr' & Hp & Hc & _ & Hne' & Hgreatest & Hsecond);
    [apply Sorted_snapshot_files | apply NoDup_snapshot_files | done |].
  assert (curr' = later) as ->.
  { apply (anti_symm String.le).
    - assert (curr' ∈ snapshot_files written) as Hin
        by (apply list_elem_of_lookup; eauto).
      apply Hfiles in Hin as [->|Hin]; [done|]. by apply Hmax.
    - apply Hgreatest, Hfiles. auto. }
  destruct (comparison_latest_two pd_read_csv timestamp final_df written prev' later Hp Hc Hlen)
    as (rest & Hprinted & _).
  exists prev', rest. cbn [printed]. rewrite Hprinted. split_and!; [done|done|].
  apply Hsecond; [apply Hfiles; auto|done].
Qed.

Lemma later_snapshot_is_current_witness :
  let http_get : string → Response :=
    λ _, Content [mkAsset (Some (JStr "ST")) (Some [tsmc])] in
  ∃ prev_file rest,
    printed (monitor_etfs plain_decimal http_get same_table "20241231" yesterday)
    = ((fetch_all plain_decimal http_get target_etfs).2 ++
       Saved (snapshot_name "20241231") ::
       Comparing "etf_holdings_20250101.csv" prev_file :: rest)%list ∧
    prev_file ≠ "etf_holdings_20250101.csv" ∧
    String.le (snapshot_name "20241231") prev_file.
Proof.
  intros http_get.
  apply (later_snapshot_is_current plain_decimal http_get same_table "20241231" yesterday
           "etf_holdings_20250101.csv").
  - by vm_compute.
  - apply (bool_decide_unpack _); vm_compute; exact I.
  - by vm_compute.
  - by vm_compute.
  - apply (bool_decide_unpack _); vm_compute; exact I.
Defined.

(** A run leaves the snapshots and the reports of other days alone: every
    snapshot file and every report file of the directory other than the
    snapshot of the day and the report of the day is as it was, neither
    rewritten nor removed.  (The pages saved for debugging are not part of
    [etf_data] here.) *)
Theorem other_days_untouched (str_to_float : string → option Q)
    (http_get : string → Response) (pd_read_csv : DataFrame → option DataFrame)
    (timestamp : string) (dir : gmap string File)
    (f : string) :
  is_snapshot f = true ∨ (∃ date_str, f = report_name date_str) →
  f ≠ snapshot_name timestamp → f ≠ report_name timestamp →
  etf_data (monitor_etfs str_to_float http_get pd_read_csv timestamp dir) !! f = dir !! f.
Proof.
  intros _ Hsnap Hrep.
  destruct (decide ((fetch_all str_to_float http_get target_etfs).1 = [])) as [Hnil|Hne].
  { by rewrite monitor_etfs_not_fetched. }
  rewrite monitor_etfs_fetched by done. cbn [etf_data].
  match goal with
  | |- etf_data (comparison _ _ ?fd ?w) !! _ = _ =>
    destruct (comparison_cases pd_read_csv timestamp fd w) as
      [[_ ->]|(_ & ? & ? & _ & _ & [(? & ? & ? & _ & _ & _ & ->)|(_ & _ & -> & _)])]
  end; cbn [etf_data]; by rewrite ?lookup_insert_ne by done.
Qed.

Lemma other_days_untouched_witness :
  let http_get : string → Response :=
    λ _, Content [mkAsset (Some (JStr "ST")) (Some [tsmc])] in
  etf_data (monitor_etfs plain_decimal http_get same_table "20250102" yesterday)
    !! "etf_holdings_20250101.csv" = Some (Snapshot (Plain [A_1000])).
Proof.
  intros http_get.
  rewrite (other_days_untouched plain_decimal http_get same_table "20250102" yesterday
             "etf_holdings_20250101.csv").
  - reflexivity.
  - left. reflexivity.
  - by vm_compute.
  - by vm_compute.
Defined.

Lemma read_csv_insert_ne (pd_read_csv : DataFrame → option DataFrame)
    (dir : gmap string File) (f g : string) (x : File) :
  f ≠ g → read_csv pd_read_csv (<[f := x]> dir) g = read_csv pd_read_csv dir g.
Proof. intros Hne. unfold read_csv. by rewrite lookup_insert_ne. Qed.

Lemma snapshot_file_not_report (dir : gmap string File) (f : string) (i : nat)
    (date_str : string) :
  snapshot_files dir !! i = Some f → report_name date_str ≠ f.
Proof.
  intros Hf%list_elem_of_lookup_2%elem_of_snapshot_files Heq. destruct Hf as [Hf _].
  by rewrite <- Heq, is_snapshot_report_name in Hf.
Qed.

(** The comparison block does not look at the report of the day: with a
    report of that name already in the directory, a comparison that
    succeeds compares the same files and leaves the same directory. *)
Lemma comparison_with_report (pd_read_csv : DataFrame → option DataFrame)
    (timestamp : string) (final_df : DataFrame)
    (dir : gmap string File) (x : File) (diff_data : gmap string Delta)
    (ret : option DataFrame) (curr_file prev_file : string) (out : list Event) :
  comparison pd_read_csv timestamp final_df dir =
    {| returned := ret;
       etf_data := <[report_name timestamp := Report diff_data]> dir;
       printed := Comparing curr_file prev_file :: ReportGenerated (report_name timestamp)
                  :: out |} →
  comparison pd_read_csv timestamp final_df (<[report_name timestamp := x]> dir) =
    {| returned := ret;
       etf_data := <[report_name timestamp := Report diff_data]> dir;
       printed := Comparing curr_file prev_file :: ReportGenerated (report_name timestamp)
                  :: out |}.
Proof.
  unfold comparison. rewrite snapshot_files_insert_report.
  set (files := snapshot_files dir).
  destruct (bool_decide (2 ≤ length files)%nat) eqn:Hlen; [|discriminate].
  apply bool_decide_eq_true_1 in Hlen.
  destruct (files !! (length files - 2)) as [prev|] eqn:Hprev;
    [|apply lookup_ge_None in Hprev; lia].
  destruct (files !! (length files - 1)) as [curr|] eqn:Hcurr;
    [|apply lookup_ge_None in Hcurr; lia].
  cbn [default from_option id].
  rewrite !read_csv_insert_ne by (by eapply snapshot_file_not_report).
  destruct (read_csv pd_read_csv dir curr) as [df_curr|]; [|discriminate].
  destruct (read_csv pd_read_csv dir prev) as [df_prev|]; [|discriminate].
  destruct (changes (compare_holdings df_curr df_prev)) as [dd|]; [|discriminate].
  cbn [generate_html_report generate_index_page].
  intros [= <- Hdir <- <- <-]. by rewrite insert_insert_eq, Hdir.
Qed.

(** Running again on the same day with the same pages changes nothing
    more: the snapshots and reports of the directory are as the first run
    left them, and the second run prints the same messages and returns the
    same table as the first. *)
Theorem run_again (str_to_float : string → option Q) (http_get : string → Response)
    (pd_read_csv : DataFrame → option DataFrame)
    (timestamp : string) (dir : gmap string File) :
  let r := monitor_etfs str_to_float http_get pd_read_csv timestamp dir in
  monitor_etfs str_to_float http_get pd_read_csv timestamp (etf_data r) = r.
Proof.
  intros r. unfold r.
  destruct (decide ((fetch_all str_to_float http_get target_etfs).1 = [])) as [Hnil|Hne].
  { by rewrite !monitor_etfs_not_fetched. }
  rewrite !monitor_etfs_fetched by done. cbn [etf_data].
  set (fetched := fetch_all str_to_float http_get target_etfs).
  set (final_df := Plain (mjoin fetched.1)).
  set (today := snapshot_name timestamp).
  set (written := <[today := Snapshot final_df]> dir).
  set (c := comparison pd_read_csv timestamp final_df written).
  assert (<[today := Snapshot final_df]> written = written) as Hw
    by apply insert_insert_eq.
  assert (comparison pd_read_csv timestamp final_df
            (<[today := Snapshot final_df]> (etf_data c)) = c)
    as ->; [|done].
  destruct (comparison_cases pd_read_csv timestamp final_df written) as
    [[_ Hc]|(_ & ? & ? & _ & _ & [(? & ? & diff_data & _ & _ & _ & Hc)|(_ & _ & Hc & _)])];
    fold c in Hc.
  - rewrite Hc at 1. cbn [etf_data]. by rewrite Hw.
  - pose proof (comparison_with_report _ _ _ _ (Report diff_data) _ _ _ _ _ Hc) as Hc'.
    rewrite Hc at 1. cbn [etf_data].
    rewrite insert_insert_ne by apply not_eq_sym, report_name_ne_snapshot_name.
    fold today. rewrite Hw, Hc'. done.
  - by rewrite Hc, Hw.
Qed.

(** ** How a run ends *)

Lemma fetch_holdings_events (str_to_float : string → option Q)
    (http_get : string → Response) (etf_code : string) :
  Forall (λ e, run_outcome e = false) (fetch_holdings str_to_float http_get etf_code).2.
Proof.
  unfold fetch_holdings. destruct (url_map etf_code) as [url|]; [|by repeat constructor].
  destruct (http_get url) as [| | |data]; try by repeat constructor.
  destruct (parse_holdings str_to_float data) as [[|r holdings]|]; by repeat constructor.
Qed.

Lemma fetch_all_events (str_to_float : string → option Q) (http_get : string → Response)
    (etfs : list string) :
  Forall (λ e, run_outcome e = false) (fetch_all str_to_float http_get etfs).2.
Proof.
  induction etfs as [|code etfs IH]; [by constructor|]. cbn [fetch_all].
  pose proof (fetch_holdings_events str_to_float http_get code) as Hev.
  destruct (fetch_holdings str_to_float http_get code) as [df out].
  destruct (fetch_all str_to_float http_get etfs) as [all_data outs].
  cbn [snd] in *.
  assert (∀ e, run_outcome e = false →
            Forall (λ e, run_outcome e = false) (Processing code :: out ++ e :: outs)%list)
    as Hall.
  { intros e He. constructor; [done|]. apply Forall_app. split; [done|]. by constructor. }
  destruct df as [rows|]; [destruct (negb (empty (Plain rows)))|]; cbn [snd]; by apply Hall.
Qed.

(** Every run prints exactly one closing message, as its last line, and
    that message tells what the run left behind: no snapshot and no report
    when no table was fetched; the snapshot of the day alone when there is not
    enough history or the comparison failed; the snapshot and the report
    of the day when the landing page was updated, which happens right
    after the report of the same date was written and at no other time. *)
Theorem run_outcomes (str_to_float : string → option Q) (http_get : string → Response)
    (pd_read_csv : DataFrame → option DataFrame)
    (timestamp : string) (dir : gmap string File) :
  let r := monitor_etfs str_to_float http_get pd_read_csv timestamp dir in
  let final_df := Plain (mjoin (fetch_all str_to_float http_get target_etfs).1) in
  let written := <[snapshot_name timestamp := Snapshot final_df]> dir in
  ∃ pre e,
    printed r = (pre ++ [e])%list ∧
    Forall (λ e, run_outcome e = false) pre ∧
    match e with
    | NoDataFetched => returned r = None ∧ etf_data r = dir
    | NotEnoughHistory => returned r = Some final_df ∧ etf_data r = written
    | ComparisonFailed =>
        (returned r = Some final_df ∨ returned r = Some (ensure_ETF final_df)) ∧
        etf_data r = written
    | IndexUpdated latest_date =>
        latest_date = timestamp ∧
        returned r = Some (ensure_ETF final_df) ∧
        last pre = Some (ReportGenerated (report_name timestamp)) ∧
        ∃ diff_data, etf_data r = <[report_name timestamp := Report diff_data]> written
    | _ => False
    end.
Proof.
  intros r final_df written. unfold r.
  pose proof (fetch_all_events str_to_float http_get target_etfs) as Hev.
  destruct (decide ((fetch_all str_to_float http_get target_etfs).1 = [])) as [Hnil|Hne].
  { rewrite monitor_etfs_not_fetched by done. by eexists _, NoDataFetched. }
  rewrite monitor_etfs_fetched by done. fold final_df written.
  set (fetched := fetch_all str_to_float http_get target_etfs) in *.
  cbn [returned etf_data printed].
  assert (∀ l, Forall (λ e, run_outcome e = false) l →
            Forall (λ e, run_outcome e = false)
              (fetched.2 ++ Saved (snapshot_name timestamp) :: l)%list) as Hpre.
  { intros l Hl. apply Forall_app. split; [done|]. by constructor. }
  destruct (comparison_cases pd_read_csv timestamp final_df written) as
    [[_ ->]|(_ & prev_file & curr_file & _ & _ &
             [(? & ? & diff_data & _ & _ & _ & ->)|(_ & Hret & -> & ->)])];
    cbn [returned etf_data printed].
  - exists (fetched.2 ++ [Saved (snapshot_name timestamp)])%list, NotEnoughHistory.
    split; [by rewrite <- app_assoc|]. split; [by apply Hpre|done].
  - exists (fetched.2 ++ [Saved (snapshot_name timestamp); Comparing curr_file prev_file;
                          ReportGenerated (report_name timestamp)])%list,
           (IndexUpdated timestamp).
    split; [by rewrite <- app_assoc|]. split; [by apply Hpre; repeat constructor|].
    split_and!; [done|done| |by exists diff_data].
    by rewrite last_app.
  - exists (fetched.2 ++ [Saved (snapshot_name timestamp); Comparing curr_file prev_file])%list,
           ComparisonFailed.
    split; [by rewrite <- app_assoc|]. split; [by apply Hpre; repeat constructor|done].
Qed.

(** When the fund's page gives a table, the snapshot file of the day is
    written from exactly the fetched rows under the five holdings columns,
    without the ETF column, and stays so whatever happens in the
    comparison afterwards, while the table the run returns holds the same
    rows, with or without that column. *)
Theorem snapshot_of_the_day (str_to_float : string → option Q)
    (http_get : string → Response) (pd_read_csv : DataFrame → option DataFrame)
    (timestamp : string) (dir : gmap string File) (rows : list Holding) :
  (fetch_holdings str_to_float http_get "00981A").1 = Some rows →
  let r := monitor_etfs str_to_float http_get pd_read_csv timestamp dir in
  etf_data r !! snapshot_name timestamp = Some (Snapshot (Plain rows)) ∧
  ("ETF" ∉ columns (Plain rows)) ∧
  (∃ df, returned r = Some df ∧ tagged_rows df = pair DEFAULT_ETF <$> rows) ∧
  ∃ rest, printed r =
    (Processing "00981A" :: (fetch_holdings str_to_float http_get "00981A").2 ++
     Fetched (length rows) "00981A" :: Saved (snapshot_name timestamp) :: rest)%list.
Proof.
  intros Hrows r.
  assert (rows ≠ []) as Hne by (by apply fetch_holdings_Some in Hrows as [? _]).
  assert (fetch_all str_to_float http_get target_etfs =
            ([rows], Processing "00981A" ::
                     (fetch_holdings str_to_float http_get "00981A").2 ++
                     [Fetched (length rows) "00981A"])%list) as Hall.
  { unfold target_etfs. cbn [fetch_all].
    destruct (fetch_holdings str_to_float http_get "00981A") as [df out].
    cbn [fst snd] in *. subst df. cbn [empty].
    by rewrite bool_decide_eq_false_2. }
  unfold r. rewrite monitor_etfs_fetched by (by rewrite Hall).
  rewrite Hall. cbn [fst snd].
  assert (mjoin [rows] = rows) as -> by (simpl; apply app_nil_r).
  cbn [returned etf_data printed].
  set (final_df := Plain rows).
  set (written := <[snapshot_name timestamp := Snapshot final_df]> dir).
  assert (written !! snapshot_name timestamp = Some (Snapshot final_df)) as Hfile
    by (unfold written; by rewrite lookup_insert_eq).
  split_and!.
  - destruct (comparison_cases pd_read_csv timestamp final_df written) as
      [[_ ->]|(_ & ? & ? & _ & _ & [(? & ? & ? & _ & _ & _ & ->)|(_ & _ & -> & _)])];
      cbn [etf_data]; [done| |done].
    by rewrite lookup_insert_ne by apply report_name_ne_snapshot_name.
  - apply (bool_decide_unpack _). by vm_compute.
  - destruct (comparison_cases pd_read_csv timestamp final_df written) as
      [[_ ->]|(_ & ? & ? & _ & _ & [(? & ? & ? & _ & _ & _ & ->)|(_ & [->| ->] & _)])];
      cbn [returned]; by eexists.
  - eexists. rewrite <- app_comm_cons, <- app_assoc. done.
Qed.

Lemma snapshot_of_the_day_witness :
  let http_get : string → Response :=
    λ _, Content [mkAsset (Some (JStr "ST")) (Some [tsmc])] in
  etf_data (monitor_etfs plain_decimal http_get same_table "20250102" yesterday)
    !! "etf_holdings_20250102.csv" = Some (Snapshot (Plain [tsmc_row])).
Proof.
  intros http_get.
  assert ((fetch_holdings plain_decimal http_get "00981A").1 = Some [tsmc_row]) as H
    by (vm_compute; reflexivity).
  exact (proj1 (snapshot_of_the_day plain_decimal http_get same_table "20250102" yesterday
                  [tsmc_row] H)).
Defined.

(** * The colours of the report *)

Lemma color_cases (x : Q) :
  (Qgtb x 0 = true ∧ (0 < x)%Q) ∨
  (Qgtb x 0 = false ∧ Qltb x 0 = true ∧ (x < 0)%Q) ∨
  (Qgtb x 0 = false ∧ Qltb x 0 = false ∧ (x == 0)%Q).
Proof.
  unfold Qltb. destruct (Qgtb x 0) eqn:E1.
  - left. split; [done|]. by apply Qgtb_lt.
  - right. destruct (Qgtb 0 x) eqn:E2.
    + left. split_and!; [done..|]. by apply Qgtb_lt.
    + right. split_and!; [done..|].
      apply Qle_antisym; apply Qnot_lt_le; intros H%Qgtb_lt; congruence.
Qed.

Lemma Qminus_pos (x y : Q) : (0 < x - y ↔ y < x)%Q.
Proof. rewrite <- (Qlt_minus_iff y x). done. Qed.

Lemma Qminus_neg (x y : Q) : (x - y < 0 ↔ x < y)%Q.
Proof.
  rewrite (Qlt_minus_iff x y), (Qlt_minus_iff (x - y) 0).
  assert (0 + - (x - y) == y + - x)%Q as -> by ring. done.
Qed.

Lemma color_spec (x : Q) :
  let color := if Qgtb x 0 then "increase" else if Qltb x 0 then "decrease" else "" in
  (color = "increase" ↔ (0 < x)%Q) ∧ (color = "decrease" ↔ (x < 0)%Q) ∧
  (color = "" ↔ (x == 0)%Q).
Proof.
  intros color. unfold color.
  destruct (color_cases x) as [[-> H]|[(-> & -> & H)|(-> & -> & H)]].
  - split_and!; split; try done.
    + intros H'. by destruct (Qlt_irrefl x); eapply Qlt_trans.
    + intros H'. rewrite H' in H. by apply Qlt_irrefl in H.
  - split_and!; split; try done.
    + intros H'. by destruct (Qlt_irrefl x); eapply Qlt_trans.
    + intros H'. rewrite H' in H. by apply Qlt_irrefl in H.
  - split_and!; split; try done.
    + intros H'. rewrite H in H'. by apply Qlt_irrefl in H'.
    + intros H'. rewrite H in H'. by apply Qlt_irrefl in H'.
Qed.

(** In the changes table of the report no row is left without a colour:
    of every changed row the weight cell or the share cell is marked as an
    increase or a decrease.  The weight cell is an increase exactly when
    the current weight is above the previous one and a decrease exactly
    when it is below, and so for the share cell. *)
Theorem changed_rows_coloured (df_curr df_prev : DataFrame) (ch : gmap string Delta)
    (etf : string) (d : Delta) (r : Changed.row) :
  changes (compare_holdings df_curr df_prev) = Some ch → ch !! etf = Some d →
  r ∈ changed d →
  (w_color r ≠ "" ∨ s_color r ≠ "") ∧
  (w_color r = "increase" ↔ (Changed.weight_prev r < Changed.weight_curr r)%Q) ∧
  (w_color r = "decrease" ↔ (Changed.weight_curr r < Changed.weight_prev r)%Q) ∧
  (s_color r = "increase" ↔ (Changed.shares_prev r < Changed.shares_curr r)%Q) ∧
  (s_color r = "decrease" ↔ (Changed.shares_curr r < Changed.shares_prev r)%Q).
Proof.
  intros Hch Hd Hr.
  destruct (compare_holdings_entry _ _ _ _ _ Hch Hd) as [_ [E ->]%compare_etf_Some].
  cbn [changed] in Hr. rewrite sort_values_Permutation in Hr.
  apply list_elem_of_filter in Hr as [Hm Hr].
  apply list_elem_of_fmap in Hr as ([c p] & -> & _).
  apply changed_mask_iff in Hm. unfold w_color, s_color.
  cbn [diff_row Changed.weight_diff Changed.shares_diff Changed.weight_curr
       Changed.weight_prev Changed.shares_curr Changed.shares_prev] in *.
  destruct (color_spec (binary64 (weight c - weight p))) as (Hwi & Hwd & Hw0).
  destruct (color_spec (binary64 (shares c - shares p))) as (Hsi & Hsd & Hs0).
  destruct (binary64_sign (weight c - weight p)) as (Hwp & Hwn & _).
  destruct (binary64_sign (shares c - shares p)) as (Hsp & Hsn & _).
  cbn zeta in *.
  rewrite Hwi, Hwd, Hsi, Hsd, Hw0, Hs0, Hwp, Hwn, Hsp, Hsn, !Qminus_pos, !Qminus_neg.
  split; [|done].
  destruct Hm as [Hm|Hm]; [left|by right].
  intros H0. rewrite H0 in Hm. by vm_compute in Hm.
Qed.

Lemma changed_rows_coloured_witness :
  let r := diff_row (A_1200, A_1000) in
  s_color r = "increase" ↔ (Changed.shares_prev r < Changed.shares_curr r)%Q.
Proof.
  intros r.
  assert (changes (compare_holdings (Plain [A_1200]) (Plain [A_1000]))
          = Some {[DEFAULT_ETF := mkDelta [] [] [r]]}) as Hch by (vm_compute; reflexivity).
  refine (proj1 (proj2 (proj2 (proj2 (changed_rows_coloured (Plain [A_1200])
            (Plain [A_1000]) _ DEFAULT_ETF _ r Hch eq_refl _))))).
  left.
Defined.

Lemma StronglySorted_sort_values (df : list Changed.row) :
  StronglySorted weight_diff_ge (sort_values df).
Proof.
  apply Sorted_StronglySorted; [apply _|].
  apply Sorted_sort_values.
Qed.

Lemma StronglySorted_lookup {A} (R : relation A) (l : list A) :
  StronglySorted R l →
  ∀ i j x y, (i < j)%nat → l !! i = Some x → l !! j = Some y → R x y.
Proof.
  induction 1 as [|z l _ IH Hz]; intros i j x y Hij Hi Hj; [done|].
  destruct j as [|j]; [lia|]. cbn in Hj. destruct i as [|i].
  - injection Hi as <-. rewrite Forall_forall in Hz. apply Hz.
    by eapply list_elem_of_lookup_2.
  - cbn in Hi. apply (IH i j); [lia|done..].
Qed.

(** The changes table is sorted by the weight difference, so its weight
    cells come in three runs: the increases first, then the rows whose
    weight did not move, then the decreases. *)
Theorem weight_colours_in_order (df_curr df_prev : DataFrame) (ch : gmap string Delta)
    (etf : string) (d : Delta) (i j : nat) (r1 r2 : Changed.row) :
  changes (compare_holdings df_curr df_prev) = Some ch → ch !! etf = Some d →
  (i < j)%nat → changed d !! i = Some r1 → changed d !! j = Some r2 →
  (w_color r2 = "increase" → w_color r1 = "increase") ∧
  (w_color r1 = "decrease" → w_color r2 = "decrease") ∧
  (w_color r1 = "" → w_color r2 ≠ "increase") ∧
  (w_color r2 = "" → w_color r1 ≠ "decrease").
Proof.
  intros Hch Hd Hij H1 H2.
  destruct (compare_holdings_entry _ _ _ _ _ Hch Hd) as [_ [E ->]%compare_etf_Some].
  cbn [changed] in H1, H2.
  pose proof (StronglySorted_lookup _ _ (StronglySorted_sort_values _) i j r1 r2 Hij H1 H2)
    as Hle.
  unfold weight_diff_ge in Hle. unfold w_color.
  destruct (color_spec (Changed.weight_diff r1)) as (Hi1 & Hd1 & Hz1).
  destruct (color_spec (Changed.weight_diff r2)) as (Hi2 & Hd2 & Hz2).
  cbn zeta in *. rewrite Hi1, Hd1, Hz1, Hi2, Hd2, Hz2.
  split_and!.
  - intros H. by eapply Qlt_le_trans.
  - intros H. by eapply Qle_lt_trans.
  - intros H0 H. rewrite H0 in Hle. by eapply Qlt_irrefl, Qlt_le_trans.
  - intros H0 H. rewrite H0 in Hle. by eapply Qlt_irrefl, Qle_lt_trans.
Qed.

Lemma weight_colours_in_order_witness :
  let first := diff_row (A_up, A_1000) in
  let second := diff_row (B_up, B_500) in
  changes (compare_holdings (Plain [A_up; B_up]) (Plain [A_1000; B_500]))
  = Some {[DEFAULT_ETF := mkDelta [] [] [first; second]]} ∧
  w_color first = "increase".
Proof.
  intros first second.
  assert (changes (compare_holdings (Plain [A_up; B_up]) (Plain [A_1000; B_500]))
          = Some {[DEFAULT_ETF := mkDelta [] [] [first; second]]}) as Hch
    by (vm_compute; reflexivity).
  split; [exact Hch|].
  refine (proj1 (weight_colours_in_order (Plain [A_up; B_up]) (Plain [A_1000; B_500]) _
            DEFAULT_ETF _ 0 1 first second Hch eq_refl _ eq_refl eq_refl) _).
  - lia.
  - vm_compute. reflexivity.
Defined.
